(** * PySheets: cell coordinates, script analysis, network cache,
      data facade, split panes and edit history

    A shallow embedding of the Python sources of the PySheets client
    ([static/api.py] in its current and legacy variants,
    [static/ltk/widgets.py], [static/history.py]) together with the
    properties their specification states about them.

    Conventions of the embedding.
    - A Python [int] is a [Z]; [divmod], [//] and [%] with a positive
      divisor are [Z.div] and [Z.modulo] (both floor).
    - A Python [str] is a [string] of 8-bit characters.  Only code points
      below 128 are interpreted: [isdigit], the character classes of the
      regular expressions and [strip] are the ASCII ones.
    - A Python [float] (and a JavaScript number) is a binary64 [float]
      with the IEEE operations of [PrimFloat].
    - Module-level mutable objects ([network_cache], [history], the DOM,
      [localStorage]) are fields of an explicit state that every
      operation takes and returns; a raised exception is a value of the
      result type.
    - Code of other packages (the [ast] parser, [pandas], the browser's
      XMLHttpRequest and clock) is a [Variable] of the section that uses
      it, or an oracle stored in the state. *)

From Stdlib Require Import ZArith Ascii String List Lia Floats.
From stdpp Require Import base option list gmap sets strings.
From Equations Require Import Equations.

Local Open Scope Z_scope.

(** ** Python primitives *)

Module Py.

(** [ord(c)] and [chr(n)].  The code calls [chr] on numbers from 0 to
    255 only (a letter, a digit, or the code of a character of the
    key). *)
Definition ord (c : ascii) : Z := Z.of_N (N_of_ascii c).
Definition chr (n : Z) : ascii := ascii_of_N (Z.to_N n).

(** [c.isdigit()] on an ASCII character, and [int(c)] for such a digit. *)
Definition isdigit (c : ascii) : bool := (48 <=? ord c) && (ord c <=? 57).
Definition int_of_char (c : ascii) : Z := ord c - 48.

(** The class [[A-Z]] of the regular expressions. *)
Definition is_upper (c : ascii) : bool := (65 <=? ord c) && (ord c <=? 90).

(** [len(s)]. *)
Definition len (s : string) : Z := Z.of_nat (String.length s).

(** [bool(s)]: a string is truthy when it is not empty. *)
Definition truthy (s : string) : bool :=
  match s with EmptyString => false | String _ _ => true end.

(** The digits of a non-negative integer, most significant first, put
    in front of [acc]. *)
Equations? str_digits (n : Z) (acc : string) : string by wf (Z.to_nat n) lt :=
  str_digits n acc with Z_lt_dec n 10 := {
    | left _ => String (chr (n + 48)) acc
    | right _ => str_digits (n / 10) (String (chr (n mod 10 + 48)) acc) }.
Proof.
  assert (n / 10 < n) by (apply Z.div_lt; lia).
  assert (0 <= n / 10) by (apply Z.div_pos; lia).
  lia.
Qed.

(** [str(n)] for an [int]: the decimal numeral, with a minus sign for a
    negative number. *)
Definition str (n : Z) : string :=
  if n <? 0 then String "-"%char (str_digits (- n) "") else str_digits n "".

(** [s[:k]] and [s[k:]]: a negative bound counts from the end, and a
    bound outside the string is clamped to it. *)
Definition slice_bound (s : string) (k : Z) : nat :=
  Z.to_nat (Z.min (len s) (if k <? 0 then Z.max 0 (k + len s) else k)).

Fixpoint take (n : nat) (s : string) : string :=
  match n, s with
  | S m, String c r => String c (take m r)
  | _, _ => EmptyString
  end.

Fixpoint drop (n : nat) (s : string) : string :=
  match n, s with
  | S m, String _ r => drop m r
  | _, _ => s
  end.

Definition slice_to (s : string) (k : Z) : string := take (slice_bound s k) s.
Definition slice_from (s : string) (k : Z) : string := drop (slice_bound s k) s.

(** [s.split(sep)] for a one-character separator: the pieces between
    the separators, always at least one piece. *)
Fixpoint split (sep : ascii) (s : string) : list string :=
  match s with
  | EmptyString => [EmptyString]
  | String c r =>
      if Ascii.eqb c sep then EmptyString :: split sep r
      else match split sep r with
           | p :: ps => String c p :: ps
           | [] => [String c EmptyString]
           end
  end.

(** [sep.join(parts)]. *)
Fixpoint join (sep : ascii) (parts : list string) : string :=
  match parts with
  | [] => EmptyString
  | [p] => p
  | p :: ps => p +:+ String sep (join sep ps)
  end.

(** White space of [s.strip()], among the ASCII characters. *)
Definition is_space (c : ascii) : bool :=
  ((9 <=? ord c) && (ord c <=? 13)) || ((28 <=? ord c) && (ord c <=? 32)).

Fixpoint lstrip (s : string) : string :=
  match s with
  | String c r => if is_space c then lstrip r else s
  | EmptyString => EmptyString
  end.

Fixpoint rstrip (s : string) : string :=
  match s with
  | String c r =>
      match rstrip r with
      | EmptyString => if is_space c then EmptyString else String c EmptyString
      | r' => String c r'
      end
  | EmptyString => EmptyString
  end.

Definition strip (s : string) : string := rstrip (lstrip s).

(** The longest prefix of [s] whose characters satisfy [p], and the rest:
    what a greedy [[class]*] consumes. *)
Fixpoint span (p : ascii -> bool) (s : string) : string * string :=
  match s with
  | String c r =>
      if p c then let '(a, b) := span p r in (String c a, b) else (EmptyString, s)
  | EmptyString => (EmptyString, EmptyString)
  end.

Fixpoint all_chars (p : ascii -> bool) (s : string) : bool :=
  match s with
  | String c r => p c && all_chars p r
  | EmptyString => true
  end.

(** A pattern's final [$]: the end of the string, or the position just
    before a newline that ends the string. *)
Definition at_dollar (s : string) : bool :=
  match s with
  | EmptyString => true
  | String c EmptyString => Ascii.eqb c "010"%char
  | _ => false
  end.

(** Exceptions, and the outcome of a call that may raise. *)
Inductive exn : Type :=
| SyntaxError
| IndexError
| ValueError
| TypeError
| AttributeError
| KeyError (key : string)
| IOError (message : string).

Inductive outcome (A : Type) : Type :=
| Returns (a : A)
| Raises (e : exn).
Arguments Returns {A} a.
Arguments Raises {A} e.

(** Sequencing: [x ← m; k] runs [k] on what [m] returns, and raises
    what [m] raises. *)
#[export] Instance outcome_ret : MRet outcome := fun _ a => Returns a.
#[export] Instance outcome_bind : MBind outcome :=
  fun _ _ k m => match m with Returns a => k a | Raises e => Raises e end.

(** [range(lo, hi)]. *)
Definition range (lo hi : Z) : list Z := seqZ lo (hi - lo).

(** The position that [l[i]] denotes in a list of [n] items: a negative
    index counts from the end; [None] stands for IndexError. *)
Definition list_index (n : nat) (i : Z) : option nat :=
  let j := if i <? 0 then i + Z.of_nat n else i in
  if (0 <=? j) && (j <? Z.of_nat n) then Some (Z.to_nat j) else None.

End Py.

(** ** Coordinate utilities of [static/api.py] (current variant) *)

Module Api.
Import Py.

(** The loop of [get_col_row_from_key]: digits feed [row], every other
    character feeds [col]. *)
Fixpoint key_loop (key : string) (row col : Z) : Z * Z :=
  match key with
  | EmptyString => (col, row)
  | String c rest =>
      if isdigit c then key_loop rest (row * 10 + int_of_char c) col
      else key_loop rest row (col * 26 + ord c - ord "A"%char + 1)
  end.

Definition get_col_row_from_key (key : string) : Z * Z := key_loop key 0 0.

(** The [while col > 0] loop of [get_column_name]; [parts], a list of
    one-character strings that is joined at the end, is kept as the
    joined string. *)
Equations? column_name_loop (col : Z) (parts : string) : string
  by wf (Z.to_nat col) lt :=
  column_name_loop col parts with Z_lt_dec 0 col := {
    | left _ => column_name_loop ((col - 1) / 26)
                  (String (chr ((col - 1) mod 26 + ord "A"%char)) parts)
    | right _ => parts }.
Proof.
  assert ((col - 1) / 26 < col) by (apply Z.div_lt_upper_bound; lia).
  assert (0 <= (col - 1) / 26) by (apply Z.div_pos; lia).
  lia.
Qed.

Definition get_column_name (col : Z) : string := column_name_loop col "".

Definition get_key_from_col_row (col row : Z) : string :=
  get_column_name col +:+ str row.

(** [index_to_col]: [index -= 1], then [while index >= 0]. *)
Equations? index_to_col_loop (index : Z) (col : string) : string
  by wf (Z.to_nat (index + 1)) lt :=
  index_to_col_loop index col with Z_le_dec 0 index := {
    | left _ => index_to_col_loop (index / 26 - 1)
                  (String (chr (index mod 26 + ord "A"%char)) col)
    | right _ => col }.
Proof.
  assert (index / 26 <= index) by (apply Z.div_le_upper_bound; lia).
  assert (0 <= index / 26) by (apply Z.div_pos; lia).
  lia.
Qed.

Definition index_to_col (index : Z) : string := index_to_col_loop (index - 1) "".

(** [cell_reference = re.compile("^[A-Z]+[0-9]+$")] under [re.match].
    The two classes are disjoint, so the greedy split is the only one. *)
Definition match_cell_reference (s : string) : bool :=
  let '(letters, s1) := span is_upper s in
  let '(digits, s2) := span isdigit s1 in
  truthy letters && truthy digits && at_dollar s2.

(** [cell_range_reference =
      re.compile("^[A-Z]+[0-9]+ *: *[A-Z]+[0-9]+$")]. *)
Definition is_blank (c : ascii) : bool := Ascii.eqb c " "%char.

Definition match_cell_range_reference (s : string) : bool :=
  let '(letters1, s1) := span is_upper s in
  let '(digits1, s2) := span isdigit s1 in
  let '(_, s3) := span is_blank s2 in
  match s3 with
  | String c s4 =>
      let '(_, s5) := span is_blank s4 in
      let '(letters2, s6) := span is_upper s5 in
      let '(digits2, s7) := span isdigit s6 in
      truthy letters1 && truthy digits1 && Ascii.eqb c ":"%char
      && truthy letters2 && truthy digits2 && at_dollar s7
  | EmptyString => false
  end.

(** A well-formed key: one or more letters of [A-Z] followed by one or
    more digits, and nothing else. *)
Definition well_formed_key (k : string) : bool :=
  let '(letters, digits) := span is_upper k in
  truthy letters && truthy digits && all_chars isdigit digits.

(** The row numeral of a key is the one [str] prints when it has no
    leading zero, the numeral [0] itself apart. *)
Definition canonical_row (k : string) : bool :=
  match snd (span is_upper k) with
  | String "0" (String _ _) => false
  | _ => true
  end.

(** What the loop of [get_col_row_from_key] adds to [col] over a run of
    letters, and to [row] over a run of digits. *)
Fixpoint letters_value (letters : string) (col : Z) : Z :=
  match letters with
  | EmptyString => col
  | String c rest => letters_value rest (col * 26 + ord c - ord "A"%char + 1)
  end.

Fixpoint digits_value (digits : string) (row : Z) : Z :=
  match digits with
  | EmptyString => row
  | String c rest => digits_value rest (row * 10 + int_of_char c)
  end.

(** [shorten]: [f"{s[:length - 3]}{s[length - 3:] and '...'}"]. *)
Definition shorten (s : string) (length : Z) : string :=
  slice_to s (length - 3)
  +:+ (if truthy (slice_from s (length - 3)) then "..." else slice_from s (length - 3)).

(** *** The syntax trees of the [ast] package

    [Name] and [Constant] are the two node classes the visitor
    overrides; every other node is a [Node] with its class, its line (0
    for an operator, which has none) and its child nodes in field
    order, which is all that [generic_visit] and
    [intercept_last_expression] look at. *)
Inductive expr_context : Type := Load | Store | Del.

Inductive constant : Type :=
| CStr (s : string)
| COther.                        (* a number, bytes, None, True, ... *)

Inductive node_class : Type :=
| Expr
| Assign
| OtherClass (name : string).

#[local] Unset Elimination Schemes.
Inductive ast : Type :=
| Name (id : string) (ctx : expr_context)
| Constant (value : constant)
| Node (cls : node_class) (lineno : Z) (fields : list ast).
#[local] Set Elimination Schemes.

(** What [ast.parse(script)] does: it returns a [Module] whose [body] is
    the list of top-level statements, or raises SyntaxError.  The parser
    can raise other exceptions (ValueError for a text with a null
    byte); they are outside this type, and the properties below are
    stated for a given answer of the parser, a tree or SyntaxError. *)
Inductive parse_result : Type :=
| Module (body : list ast)
| ParseError.

(** [is_cell_reference(s)] and [is_cell_range_reference(s)]:
    [isinstance(s, str) and re.match(pattern, s)]. *)
Definition is_cell_reference (s : string) : bool := match_cell_reference s.

Definition is_cell_range_reference (v : constant) : bool :=
  match v with
  | CStr s => match_cell_range_reference s
  | COther => false
  end.

(** The set objects of the process: a [set()] expression allocates a new
    object at the end of the store, and [.add] updates the object in
    place. *)
Abbreviation heap := (list (gset string)).
Abbreviation loc := nat.

Definition set_add (l : loc) (k : string) (h : heap) : heap :=
  alter (fun s => {[ k ]} ∪ s) l h.

(** [grows l P h h']: the store [h'] is [h] but for the set at [l],
    which has gained exactly the keys that satisfy [P]. *)
Definition grows (l : nat) (P : string -> Prop) (h h' : heap) : Prop :=
  exists s s' : gset string,
    h !! l = Some s /\ h' = <[l := s']> h /\ forall k, k ∈ s' <-> k ∈ s \/ P k.

(** The methods of [InputFinder].  [self.inputs] finds no attribute on
    the instance and resolves to the class attribute: the set object at
    [inputs], the same one for every instance of that class object. *)
Section InputFinder.
Variable inputs : loc.

Definition add_input (s : string) (h : heap) : heap :=
  if is_cell_reference s then set_add inputs s h else h.

Definition visit_Name (id : string) (ctx : expr_context) (h : heap) : heap :=
  match ctx with
  | Load => add_input id h
  | _ => h
  end.

(** The two nested [for] loops of [visit_Constant]. *)
Definition add_rectangle (start_col start_row end_col end_row : Z) (h : heap) : heap :=
  fold_left
    (fun h col =>
       fold_left (fun h row => add_input (get_key_from_col_row col row) h)
                 (range start_row (end_row + 1)) h)
    (range start_col (end_col + 1)) h.

(** [start, end = node.value.split(":")] unpacks exactly two pieces; a
    string that matches the range pattern has exactly one colon
    (lemma [range_reference_split]), so the last branch is never
    taken. *)
Definition visit_Constant (value : constant) (h : heap) : heap :=
  if is_cell_range_reference value then
    match value with
    | CStr s =>
        match split ":"%char s with
        | [start; end_] =>
            let '(start_col, start_row) := get_col_row_from_key (strip start) in
            let '(end_col, end_row) := get_col_row_from_key (strip end_) in
            add_rectangle start_col start_row end_col end_row h
        | _ => h
        end
    | COther => h
    end
  else h.

(** [NodeVisitor.visit]: the overridden methods for [Name] and
    [Constant], [generic_visit] (every child in field order) for the
    rest. *)
Fixpoint visit (node : ast) (h : heap) : heap :=
  match node with
  | Name id ctx => visit_Name id ctx h
  | Constant value => visit_Constant value h
  | Node _ _ fields => fold_left (fun h child => visit child h) fields h
  end.

End InputFinder.

(** The node [n] is [t] or one of its descendants. *)
Inductive occurs (n : ast) : ast -> Prop :=
| occurs_here : occurs n n
| occurs_below (cls : node_class) (lineno : Z) (fields : list ast) (child : ast) :
    child ∈ fields -> occurs n child -> occurs n (Node cls lineno fields).

(** The key [k] is in the rectangle of the range literal [s]: the cell
    of a column and a row between those of its two ends. *)
Definition in_rectangle (s k : string) : Prop :=
  exists (start end_ : string) (col row : Z),
    split ":"%char s = [start; end_] /\
    (get_col_row_from_key (strip start)).1 <= col <= (get_col_row_from_key (strip end_)).1 /\
    (get_col_row_from_key (strip start)).2 <= row <= (get_col_row_from_key (strip end_)).2 /\
    k = get_key_from_col_row col row.

(** The inputs that a tree denotes: the identifiers in read context
    that match the cell pattern, and the cells of the string literals
    that match the range pattern. *)
Definition tree_input (t : ast) (k : string) : Prop :=
  (occurs (Name k Load) t /\ match_cell_reference k = true) \/
  (exists s : string,
     occurs (Constant (CStr s)) t /\ match_cell_range_reference s = true /\
     in_rectangle s k).

Definition is_input (body : list ast) (k : string) : Prop :=
  exists stmt : ast, stmt ∈ body /\ tree_input stmt k.

(** The tree of a one-line script that reads [A1] and [B2] and holds
    the literal ["A1:A3"], as in [A1 + B2 + f("A1:A3")]; the target of
    an assignment, as [C1] in [C1 = ...], is a [Name] in [Store]
    context. *)
Definition example_body : list ast :=
  [ Node Assign 1
      [ Name "C1" Store;
        Node (OtherClass "BinOp") 1
          [ Node (OtherClass "BinOp") 1
              [Name "A1" Load; Node (OtherClass "Add") 0 []; Name "B2" Load];
            Node (OtherClass "Add") 0 [];
            Node (OtherClass "Call") 1 [Name "f" Load; Constant (CStr "A1:A3")] ] ] ].

(** A parser for two one-line scripts, each an expression statement that
    reads one cell. *)
Definition example_parse (script : string) : parse_result :=
  if String.eqb script "A1" then Module [Node Expr 1 [Name "A1" Load]]
  else if String.eqb script "B2" then Module [Node Expr 1 [Name "B2" Load]]
  else ParseError.

Section Analyzer.
(** The parser of the [ast] package. *)
Variable ast_parse : string -> parse_result.

(** [find_inputs].  The [class InputFinder] statement is in the body of
    the function, so each call executes it: it evaluates [set()] and
    binds the new object to the attribute [inputs] of a new class.
    [list(set)] lists every member once, in an order the language does
    not fix; [elements] stands for it, and the properties below use
    only its members and the absence of repetitions. *)
Definition find_inputs (script : string) (h : heap) : list string * heap :=
  let inputs := length h in
  let h1 := h ++ [∅] in
  match ast_parse script with
  | Module body =>
      let h2 := fold_left (fun h stmt => visit inputs stmt h) body h1 in
      (elements (default ∅ (h2 !! inputs)), h2)
  | ParseError => ([], h1)
  end.

(** [lines[i] = f"_ = {lines[i]}"]. *)
Definition prefix_line (lines : list string) (i : Z) : outcome (list string) :=
  match list_index (length lines) i with
  | Some n => Returns (alter (fun line => "_ = " +:+ line) n lines)
  | None => Raises IndexError
  end.

(** [intercept_last_expression]. *)
Definition intercept_last_expression (script : string) : outcome string :=
  if negb (truthy script) then Returns ""
  else
    match ast_parse script with
    | ParseError => Raises SyntaxError
    | Module body =>
        match last body with
        | None => Raises IndexError
        | Some stmt =>
            let lines := split "010"%char script in
            match stmt with
            | Node Expr lineno _ | Node Assign lineno _ =>
                lines' ← prefix_line lines (lineno - 1);
                Returns (join "010"%char lines')
            | _ => Returns (join "010"%char (lines ++ ["_ = None"]))
            end
        end
    end.

End Analyzer.

(** *** The network trampoline

    [network_cache] is a module-level dict.  The clock and the server
    are oracles: [time_time n] is what the [n]-th call of [time.time()]
    returns, [xhr_get n url] the status and the response text of the
    [n]-th request of the process. *)
Record net : Type := Net {
  network_cache : gmap string (float * string);
  clock_reads : nat;               (* calls of time.time() so far *)
  requests : list string           (* GETs sent so far, latest first *)
}.

Section Trampoline.
Variable time_time : nat -> float.
Variable xhr_get : nat -> string -> Z * string.

(** The part of [get] after the cache check: the request and what
    follows it. *)
Definition fetch (url : string) (st : net) : outcome string * net :=
  let '(status, responseText) := xhr_get (length (requests st)) url in
  let sent := url :: requests st in
  if negb (status =? 200) then
    (Raises (IOError ("HTTP Error: " +:+ str status +:+ " for " +:+ url)),
     Net (network_cache st) (clock_reads st) sent)
  else
    (Returns responseText,
     Net (<[url := (time_time (clock_reads st), responseText)]> (network_cache st))
         (S (clock_reads st)) sent).

(** The inner function [get] of [load_with_trampoline]. *)
Definition get (url : string) (st : net) : outcome string * net :=
  match network_cache st !! url with
  | Some (when, value) =>
      let now := time_time (clock_reads st) in
      let st' := Net (network_cache st) (S (clock_reads st)) (requests st) in
      if PrimFloat.ltb (now - when)%float 60%float then (Returns value, st')
      else fetch url st'
  | None => fetch url st
  end.

End Trampoline.

(** *** The data facade [PySheets]

    A cell value is a string or an integer.  [data] is a dict: it keeps
    the order in which its keys were first assigned. *)
Inductive value : Type :=
| VStr (s : string)
| VInt (n : Z).

#[export] Instance value_eq_dec : EqDecision value.
Proof. solve_decision. Defined.

Abbreviation columns := (list (value * list value)).

(** [data[header] = values]. *)
Fixpoint dict_set (header : value) (values : list value) (data : columns) : columns :=
  match data with
  | [] => [(header, values)]
  | (h, vs) :: rest =>
      if decide (h = header) then (h, values) :: rest
      else (h, vs) :: dict_set header values rest
  end.

(** What the attribute [_inputs] holds after [__init__]. *)
Inductive inputs_attr : Type :=
| EmptyList                       (* the list [[]] *)
| Mapping (d : gmap string value).

(** [self._inputs = inputs or []]: [None] and the empty dict are falsy. *)
Definition init_inputs (inputs : option (gmap string value)) : inputs_attr :=
  match inputs with
  | Some d => if decide (d = ∅) then EmptyList else Mapping d
  | None => EmptyList
  end.

(** [self._inputs.get(key, "")]: a list has no attribute [get]. *)
Definition inputs_get (self_inputs : inputs_attr) (key : string) : outcome value :=
  match self_inputs with
  | Mapping d => Returns (default (VStr "") (d !! key))
  | EmptyList => Raises AttributeError
  end.

(** A list comprehension whose element expression may raise. *)
Fixpoint comprehension {A B : Type} (f : A -> outcome B) (l : list A) : outcome (list B) :=
  match l with
  | [] => Returns []
  | a :: l' => b ← f a; bs ← comprehension f l'; Returns (b :: bs)
  end.

(** [values.pop(0) if headers else f"col-{col}"], with the values that
    are left. *)
Definition take_header (headers : bool) (col : Z) (values : list value)
  : outcome (value * list value) :=
  if headers then
    match values with
    | v :: rest => Returns (v, rest)
    | [] => Raises IndexError
    end
  else Returns (VStr ("col-" +:+ str col), values).

(** The body of the loop over the columns, for a way [read] to read one
    key, and the loop itself. *)
Definition sheet_column (read : string -> outcome value) (key_of : Z -> Z -> string)
    (headers : bool) (start_row end_row : Z) (col : Z) (data : columns)
  : outcome columns :=
  let keys := map (key_of col) (range start_row (end_row + 1)) in
  values ← comprehension read keys;
  '(header, values') ← take_header headers col values;
  Returns (dict_set header values' data).

Fixpoint sheet_columns (read : string -> outcome value) (key_of : Z -> Z -> string)
    (headers : bool) (start_row end_row : Z) (cols : list Z) (data : columns)
  : outcome columns :=
  match cols with
  | [] => Returns data
  | col :: cols' =>
      data' ← sheet_column read key_of headers start_row end_row col data;
      sheet_columns read key_of headers start_row end_row cols' data'
  end.

(** What [sheet] returns: a data frame or a string. *)
Inductive sheet_result (frame : Type) : Type :=
| Frame (df : frame)
| Text (s : string).
Arguments Frame {frame} df.
Arguments Text {frame} s.

Section PySheets.
(** [pandas]: the data frames, the other objects, and
    [pd.DataFrame.from_dict]. *)
Variables frame other : Type.
Variable from_dict : columns -> outcome (frame + other).

Definition sheet (self_inputs : inputs_attr) (selection : string) (headers : bool)
  : outcome (sheet_result frame) :=
  match split ":"%char selection with
  | [start; end_] =>
      let '(start_col, start_row) := get_col_row_from_key start in
      let '(end_col, end_row) := get_col_row_from_key end_ in
      data ← sheet_columns (inputs_get self_inputs)
               (fun col row => index_to_col col +:+ str row)
               headers start_row end_row (range start_col (end_col + 1)) [];
      df ← from_dict data;
      match df with
      | inl df => Returns (Frame df)
      | inr _ => Returns (Text "Error: Incomplete Data")
      end
  | _ => Raises ValueError
  end.

End PySheets.

End Api.

(** ** The legacy variant of [static/api.py] *)

Module LegacyApi.
Import Py.
Export Api (value, VStr, VInt, columns, net, Net, network_cache, clock_reads, requests).

(** [int(s)] for a string: white space around it is dropped, a sign may
    come first, and single underscores may separate digits.  On an ASCII
    string the white space of [int] is the space and the characters
    9 to 13, a smaller set than the one of [strip]; and a numeral of
    more than [sys.get_int_max_str_digits()] digits, 4300 unless it is
    set, is refused with ValueError. *)
Definition is_int_space (c : ascii) : bool :=
  ((9 <=? ord c) && (ord c <=? 13)) || (ord c =? 32).

Fixpoint skip_left (p : ascii -> bool) (s : string) : string :=
  match s with
  | String c r => if p c then skip_left p r else s
  | EmptyString => EmptyString
  end.

Fixpoint skip_right (p : ascii -> bool) (s : string) : string :=
  match s with
  | String c r =>
      match skip_right p r with
      | EmptyString => if p c then EmptyString else String c EmptyString
      | r' => String c r'
      end
  | EmptyString => EmptyString
  end.

Definition int_max_str_digits : Z := 4300.

Fixpoint count_digits (s : string) : Z :=
  match s with
  | EmptyString => 0
  | String c r => (if isdigit c then 1 else 0) + count_digits r
  end.

Fixpoint int_digits (s : string) (acc : Z) (after_digit : bool) : option Z :=
  match s with
  | EmptyString => if after_digit then Some acc else None
  | String c r =>
      if isdigit c then int_digits r (acc * 10 + int_of_char c) true
      else if Ascii.eqb c "_"%char && after_digit then int_digits r acc false
      else None
  end.

Definition int (s : string) : outcome Z :=
  let parsed :=
    match skip_right is_int_space (skip_left is_int_space s) with
    | String "-" r => option_map Z.opp (int_digits r 0 false)
    | String "+" r => int_digits r 0 false
    | r => int_digits r 0 false
    end in
  match parsed with
  | Some n =>
      if count_digits s <=? int_max_str_digits then Returns n else Raises ValueError
  | None => Raises ValueError
  end.

(** [key[i]] for an index [i] that may be negative. *)
Definition char_at (key : string) (i : Z) : outcome ascii :=
  match list_index (String.length key) i with
  | Some n =>
      match String.get n key with
      | Some c => Returns c
      | None => Raises IndexError
      end
  | None => Raises IndexError
  end.

(** The loop of [get_col_row] from position [index] on, [rest] being
    [key[index:]].  The function returns [None] when no character is a
    digit. *)
Fixpoint get_col_row_loop (key rest : string) (index : Z) : outcome (option (Z * Z)) :=
  match rest with
  | EmptyString => Returns None
  | String c rest' =>
      if isdigit c then
        row ← int rest;
        c' ← char_at key (index - 1);
        Returns (Some (ord c' - ord "A"%char + 1, row))
      else get_col_row_loop key rest' (index + 1)
  end.

Definition get_col_row (key : string) : outcome (option (Z * Z)) :=
  get_col_row_loop key key 0.

(** [a, b = get_col_row(key)]: unpacking [None] raises TypeError. *)
Definition unpack_col_row (key : string) : outcome (Z * Z) :=
  result ← get_col_row key;
  match result with
  | Some col_row => Returns col_row
  | None => Raises TypeError
  end.

(** [self.inputs[key]]. *)
Definition inputs_item (inputs : gmap string value) (key : string) : outcome value :=
  match inputs !! key with
  | Some v => Returns v
  | None => Raises (KeyError key)
  end.

Section PySheets.
Variable object : Type.
Variable from_dict : columns -> outcome object.

Definition sheet (inputs : gmap string value) (selection : string) (headers : bool)
  : outcome object :=
  match split ":"%char selection with
  | [start; end_] =>
      '(start_col, start_row) ← unpack_col_row start;
      '(end_col, end_row) ← unpack_col_row end_;
      data ← Api.sheet_columns (inputs_item inputs)
               (fun col row => String (chr (ord "A"%char + col - 1)) (str row))
               headers start_row end_row (range start_col (end_col + 1)) [];
      from_dict data
  | _ => Raises ValueError
  end.

End PySheets.

Section Trampoline.
Variable time_time : nat -> float.
Variable xhr_get : nat -> string -> Z * string.

(** The inner function [get] of the legacy [load_with_trampoline] and
    the part of it after the cache check; the text of the function is
    the one of the current variant. *)
Definition fetch (url : string) (st : net) : outcome string * net :=
  let '(status, responseText) := xhr_get (length (requests st)) url in
  let sent := url :: requests st in
  if negb (status =? 200) then
    (Raises (IOError ("HTTP Error: " +:+ str status +:+ " for " +:+ url)),
     Net (network_cache st) (clock_reads st) sent)
  else
    (Returns responseText,
     Net (<[url := (time_time (clock_reads st), responseText)]> (network_cache st))
         (S (clock_reads st)) sent).

Definition get (url : string) (st : net) : outcome string * net :=
  match network_cache st !! url with
  | Some (when, value) =>
      let now := time_time (clock_reads st) in
      let st' := Net (network_cache st) (S (clock_reads st)) (requests st) in
      if PrimFloat.ltb (now - when)%float 60%float then (Returns value, st')
      else fetch url st'
  | None => fetch url st
  end.

End Trampoline.

End LegacyApi.

(** ** Split panes of [static/ltk/widgets.py] *)

Module Widgets.

(** The geometry that jQuery reports for an element. *)
Record box : Type := Box {
  width : float;
  height : float;
  left : float;
  top : float
}.

(** The four elements of a split pane: the pane itself and its three
    children. *)
Inductive part : Type := Self | First | Middle | Last.

(** The two subclasses; they differ in their accessors only. *)
Inductive direction : Type := Horizontal | Vertical.

(** [max(1, x)]: the first argument stays unless the second is greater. *)
Definition max1 (x : float) : float := if PrimFloat.ltb 1 x then x else 1%float.

Definition get_size (d : direction) (x : box) : float :=
  match d with
  | Horizontal => max1 (width x)
  | Vertical => max1 (height x)
  end.

Definition get_position (d : direction) (x : box) : float :=
  match d with
  | Horizontal => left x
  | Vertical => top x
  end.

(** What a method does to the page, in order.  [set_size] is given the
    string [f"{v}"], the shortest decimal that reads back as the float
    [v]; the embedding records [v]. *)
Inductive effect : Type :=
| SetSize (x : part) (v : float)
| SetPosition (x : part) (v : Z)
| Trigger (x : part) (event : string)
| SetItem (key : string) (v : float).       (* localStorage.setItem *)

Record split_pane : Type := SplitPane {
  pane_direction : direction;
  key : string;
  ratio : float;
  element : part -> box
}.

(** [SplitPane.layout]. *)
Definition layout (self : split_pane) : list effect :=
  let size := get_size (pane_direction self) (element self Self) in
  let middle := get_size (pane_direction self) (element self Middle) in
  [ SetSize First (ratio self * size + middle)%float;
    SetSize Last ((1 - ratio self) * size - middle)%float;
    SetPosition Middle 0;
    Trigger First "layout";
    Trigger Last "layout";
    SetItem (key self) (ratio self) ].

(** [SplitPane.resize]: the new ratio, then [layout]. *)
Definition resize (self : split_pane) : split_pane * list effect :=
  let position := (get_position (pane_direction self) (element self Middle)
                   - get_position (pane_direction self) (element self Self))%float in
  let self' := SplitPane (pane_direction self) (key self)
                 (position / get_size (pane_direction self) (element self Self))%float
                 (element self) in
  (self', layout self').

(** The horizontal pane of the example: a container 100 wide, a divider
    0 wide, the ratio that Python writes [0.3]. *)
Definition example_pane : split_pane :=
  SplitPane Horizontal "split-main" 0x1.3333333333333p-2%float
    (fun x => match x with
              | Self => Box 100 0 0 0
              | _ => Box 0 0 0 0
              end).

End Widgets.

(** ** The edit history of [static/history.py] *)

Module History.

Section History.
(** The sheets of the [models] package. *)
Variable Sheet : Type.

(** An edit, as far as [undo] uses it: its printed form, and its method
    [undo], which may change the sheet and answers whether it undid
    something. *)
Record edit : Type := Edit {
  edit_repr : string;
  edit_undo : Sheet -> bool * Sheet
}.

(** The module-level list [history] (latest edit last), the calls of
    [ltk.schedule] so far (latest first, by their key) and the lines
    printed so far (latest first). *)
Record state : Type := State {
  history : list edit;
  scheduled : list string;
  printed : list string
}.

(** Every edit of a stack (latest first) answers that it undid nothing
    when the edits are undone in turn, which takes the sheet from the
    first state to the second. *)
Inductive all_fail : list edit -> Sheet -> Sheet -> Prop :=
| all_fail_nil (sheet : Sheet) : all_fail [] sheet sheet
| all_fail_cons (e : edit) (es : list edit) (sheet sheet' sheet'' : Sheet) :
    edit_undo e sheet = (false, sheet') ->
    all_fail es sheet' sheet'' ->
    all_fail (e :: es) sheet sheet''.

(** [schedule_flush]: [ltk.schedule(flush, "flush events", 0)]. *)
Definition schedule_flush (scheduled : list string) : list string :=
  "flush events" :: scheduled.

(** The [while history] loop of [undo] on the stack of edits, latest
    first, which is what [history.pop()] walks through. *)
Fixpoint undo_loop (stack : list edit) (scheduled printed : list string) (sheet : Sheet)
  : list edit * list string * list string * Sheet :=
  match stack with
  | [] => ([], scheduled, printed, sheet)
  | e :: rest =>
      let '(done, sheet') := edit_undo e sheet in
      if done then
        (rest, schedule_flush scheduled, ("undo " +:+ edit_repr e) :: printed, sheet')
      else undo_loop rest scheduled printed sheet'
  end.

Definition undo (st : state) (sheet : Sheet) : state * Sheet :=
  let '(stack, scheduled', printed', sheet') :=
    undo_loop (rev (history st)) (scheduled st) (printed st) sheet in
  (State (rev stack) scheduled' printed', sheet').

End History.

(** Three edits on a sheet that counts the undos tried on it: the two
    latest fail, the first one succeeds. *)
Definition example_fails (name : string) : edit nat :=
  Edit nat name (fun sheet => (false, S sheet)).
Definition example_succeeds (name : string) : edit nat :=
  Edit nat name (fun sheet => (true, S sheet)).

End History.

(** ** More of [static/api.py] (current variant) *)

Module Values.
Import Py Api.

(** The characters of [s] that satisfy [p], in order. *)
Fixpoint keep (p : ascii -> bool) (s : string) : string :=
  match s with
  | EmptyString => EmptyString
  | String c r => if p c then String c (keep p r) else keep p r
  end.

(** [c in s] for a one-character string [c]. *)
Fixpoint contains_char (c : ascii) (s : string) : bool :=
  match s with
  | EmptyString => false
  | String x r => Ascii.eqb x c || contains_char c r
  end.

(** What [convert] returns: a float, an int or a string. *)
Inductive converted : Type :=
| Float (f : float)
| Int (n : Z)
| Str (s : string).

(** A parser for two one-line scripts with the same statements in two
    orders. *)
Definition example_parse_order (script : string) : parse_result :=
  if String.eqb script "A1; B2" then
    Module [Node Expr 1 [Name "A1" Load]; Node Expr 1 [Name "B2" Load]]
  else if String.eqb script "B2; A1; B2" then
    Module [Node Expr 1 [Name "B2" Load]; Node Expr 1 [Name "A1" Load];
            Node Expr 1 [Name "B2" Load]]
  else ParseError.

Section Convert.
(** [float(value)] for a string. *)
Variable float_of_str : string -> outcome float.

(** [convert]: only ValueError is caught. *)
Definition convert (value : string) : outcome converted :=
  let attempt :=
    if contains_char "."%char value then f ← float_of_str value; Returns (Float f)
    else n ← LegacyApi.int value; Returns (Int n) in
  match attempt with
  | Returns x => Returns x
  | Raises ValueError => Returns (if truthy value then Str value else Int 0)
  | Raises e => Raises e
  end.

End Convert.

End Values.

Module Loader.
Import Py Api.

Section Load.
Variable time_time : nat -> float.
Variable xhr_get : nat -> string -> Z * string.
(** [window.encodeURIComponent] and [base64.b64decode]. *)
Variable encodeURIComponent : string -> string.
Variable b64decode : string -> outcome string.


End Load.

End Loader.

(** ** More of the legacy [static/api.py] *)

Module LegacyScript.
Import Py.

(** [edit_script]: [lines[-1] = f"_={lines[-1]}"] on the lines of the
    stripped script. *)
Definition edit_script (script : string) : outcome string :=
  let lines := split "010"%char (strip script) in
  match list_index (length lines) (-1) with
  | Some n => Returns (join "010"%char (alter (fun line => "_=" +:+ line) n lines))
  | None => Raises IndexError
  end.

End LegacyScript.

(** ** More of [static/history.py] *)

Module HistoryLog.
Import History.

Section Add.
Variable Sheet : Type.
(** [isinstance(edit, models.USER_EDITS)]. *)
Variable is_user_edit : edit Sheet -> bool.

(** [add]: the console is the list of the messages written so far,
    latest first, each with its channel. *)
Definition add (e : edit Sheet) (st : state Sheet) (console : list (string * string))
  : state Sheet * list (string * string) :=
  let history' := history Sheet st ++ [e] in
  let console' :=
    if is_user_edit e then ("Sheet", "[History] Saving...") :: console else console in
  (State Sheet history' (schedule_flush (scheduled Sheet st)) (printed Sheet st), console').

End Add.

End HistoryLog.

(** ** More of [static/ltk/widgets.py] *)

Module Toolkit.
Import Py.

(** *** [Widget._flatten]

    A child is told apart by its type, in the order of the tests of
    the loop. *)
Section Flatten.
(** The jQuery elements and the other objects that are appended as they
    are, and [str] of a float. *)
Variable object : Type.
Variable str_float : float -> string.

#[local] Unset Elimination Schemes.
Inductive child : Type :=
| Dict (css : list (string * string))
| AWidget (element : object)
| Generator (items : list child)
| List (items : list child)
| AFloat (f : float)
| Other (x : object).
#[local] Set Elimination Schemes.

(** What is handed to jQuery's [append]. *)
Inductive appended : Type :=
| Appended (x : object)
| Text (s : string).

Fixpoint flatten_child (c : child) : list appended :=
  match c with
  | Dict _ => []
  | AWidget element => [Appended element]
  | Generator items => concat (map flatten_child items)
  | List items => concat (map flatten_child items)
  | AFloat f => [Text (str_float f)]
  | Other x => [Appended x]
  end.

(** [_flatten(children)]. *)
Definition _flatten (children : list child) : list appended :=
  concat (map flatten_child children).

End Flatten.

(** *** Menu shortcuts *)

Definition BROWSER_SHORTCUTS : list string := ["Cmd+N"; "Cmd+T"; "Cmd+W"; "Cmd+Q"].

(** [s.upper()] on ASCII characters. *)
Definition upper_char (c : ascii) : ascii :=
  if (97 <=? ord c) && (ord c <=? 122) then chr (ord c - 32) else c.

Fixpoint upper (s : string) : string :=
  match s with
  | EmptyString => EmptyString
  | String c r => String (upper_char c) (upper r)
  end.

Section Shortcuts.
(** The menu items. *)
Variable item : Type.

(** What [MenuItem.__init__] does to the module-level dict [shortcuts],
    for the shortcut it is given ([None] or a string) and the item under
    construction. *)
Definition MenuItem_init (shortcut : option string) (self : item)
    (shortcuts : gmap string item) : outcome (gmap string item) :=
  match shortcut with
  | Some s =>
      if bool_decide (s ∈ BROWSER_SHORTCUTS) then Raises ValueError
      else if truthy s then Returns (<[s := self]> shortcuts)
      else Returns shortcuts
  | None => Returns shortcuts
  end.

(** A keydown event: [event.metaKey], and [event.key] when it is a
    string. *)
Record keydown : Type := Keydown {
  metaKey : bool;
  key : option string
}.

(** The shortcut string that [handle_keydown] computes; any failure
    gives the empty string. *)
Definition shortcut_of (event : keydown) : string :=
  match key event with
  | Some k => (if metaKey event then "Cmd+" else "") +:+ upper k
  | None => ""
  end.

(** [handle_keydown]: the item whose [select] is called, if any. *)
Definition handle_keydown (shortcuts : gmap string item) (event : keydown) : option item :=
  shortcuts !! shortcut_of event.

(** The registry after a run of constructions, each one either
    completing or raising. *)
Fixpoint construct_all (items : list (option string * item))
    (shortcuts : gmap string item) : gmap string item :=
  match items with
  | [] => shortcuts
  | (shortcut, self) :: rest =>
      match MenuItem_init shortcut self shortcuts with
      | Returns shortcuts' => construct_all rest shortcuts'
      | Raises _ => construct_all rest shortcuts
      end
  end.

End Shortcuts.

(** *** The guided tour [Tutorial] *)

(** A step: its selector, its event and its content. *)
Abbreviation step := (string * string * string)%type.

Record tutorial : Type := Tutorial {
  steps : list step;
  index : Z
}.

(** What a method does to the page: the overlay is removed, or the step
    at a position is built, shown and bound to its event. *)
Inductive tour_effect : Type :=
| Closed
| Shown (position : Z) (s : step).

(** [show]: nothing outside the steps. *)
Definition show (self : tutorial) : list tour_effect :=
  if (index self <? 0) || (Z.of_nat (length (steps self)) <=? index self) then []
  else
    match steps self !! Z.to_nat (index self) with
    | Some s => [Shown (index self) s]
    | None => []
    end.

Definition run (self : tutorial) : tutorial * list tour_effect :=
  let self' := Tutorial (steps self) 0 in
  (self', show self').

Definition close (self : tutorial) : list tour_effect := [Closed].

Definition previous (self : tutorial) : tutorial * list tour_effect :=
  if 0 <? index self then
    let self' := Tutorial (steps self) (index self - 1) in
    (self', close self ++ show self')
  else (self, close self).

Definition next (self : tutorial) : tutorial * list tour_effect :=
  if index self <? Z.of_nat (length (steps self)) then
    let self' := Tutorial (steps self) (index self + 1) in
    (self', close self ++ show self')
  else (self, close self).

(** [event]: the handler bound by [show] at position [i]. *)
Definition event (i : Z) (self : tutorial) : tutorial * list tour_effect :=
  if i =? index self then next self else (self, []).

(** The calls a user of the tour can make. *)
Inductive tour_call : Type :=
| Run
| Previous
| Next
| Event (i : Z).

Definition call (c : tour_call) (self : tutorial) : tutorial * list tour_effect :=
  match c with
  | Run => run self
  | Previous => previous self
  | Next => next self
  | Event i => event i self
  end.

Definition calls (cs : list tour_call) (self : tutorial) : tutorial :=
  fold_left (fun t c => (call c t).1) cs self.

End Toolkit.

(** * Properties *)

(** ** Characters and numerals *)

Module PyFacts.
Import Py.

Lemma ord_range (c : ascii) : 0 <= ord c < 256.
Proof.
  unfold ord. pose proof (N_ascii_bounded c) as H. lia.
Qed.

Lemma chr_ord (c : ascii) : chr (ord c) = c.
Proof.
  unfold chr, ord. rewrite N2Z.id. apply ascii_N_embedding.
Qed.

Lemma ord_chr (n : Z) : 0 <= n < 256 -> ord (chr n) = n.
Proof.
  intros H. unfold chr, ord. rewrite N_ascii_embedding by lia. lia.
Qed.

Lemma str_digits_small (n : Z) (acc : string) :
  n < 10 -> str_digits n acc = String (chr (n + 48)) acc.
Proof.
  intros H. simp str_digits. destruct (Z_lt_dec n 10); [reflexivity | lia].
Qed.

Lemma str_digits_large (n : Z) (acc : string) :
  10 <= n -> str_digits n acc = str_digits (n / 10) (String (chr (n mod 10 + 48)) acc).
Proof.
  intros H. rewrite str_digits_equation_1. destruct (Z_lt_dec n 10); [lia | reflexivity].
Qed.

Lemma append_empty (s : string) : "" +:+ s = s.
Proof. reflexivity. Qed.

Lemma append_String (c : ascii) (a b : string) : String c a +:+ b = String c (a +:+ b).
Proof. reflexivity. Qed.

(** Unfolding [+:+] under its first argument's constructors. *)
Ltac simpl_append := rewrite ?append_String, ?append_empty in *.

Lemma append_nil_r (s : string) : s +:+ "" = s.
Proof. induction s as [|c s IH]; simpl_append; [reflexivity | now rewrite IH]. Qed.

Lemma append_assoc (a b c : string) : (a +:+ b) +:+ c = a +:+ (b +:+ c).
Proof. induction a as [|x a IH]; simpl_append; [reflexivity | now rewrite IH]. Qed.

Lemma span_spec (p : ascii -> bool) (s a b : string) :
  span p s = (a, b) -> s = a +:+ b /\ all_chars p a = true.
Proof.
  revert a b. induction s as [|c s IH]; simpl; intros a b H.
  - inversion H. split; reflexivity.
  - destruct (p c) eqn:Hc.
    + destruct (span p s) as [a' b'] eqn:Hs. inversion H; subst.
      destruct (IH a' b eq_refl) as [-> Hall]. simpl. rewrite Hc. split; auto.
    + inversion H. split; reflexivity.
Qed.

(** A run of characters of the class, followed by a string that does
    not start with one, is split where the run ends. *)
Lemma span_app (p : ascii -> bool) (a b : string) :
  all_chars p a = true ->
  match b with String c _ => p c = false | EmptyString => True end ->
  span p (a +:+ b) = (a, b).
Proof.
  intros Ha Hb. induction a as [|x a IH]; simpl_append; simpl in *.
  - destruct b as [|c b]; simpl; [reflexivity | now rewrite Hb].
  - apply andb_prop in Ha as [Hx Ha]. rewrite Hx, (IH Ha). reflexivity.
Qed.

Lemma is_upper_ord (c : ascii) : is_upper c = true <-> 65 <= ord c <= 90.
Proof. unfold is_upper. rewrite andb_true_iff, !Z.leb_le. tauto. Qed.

Lemma isdigit_ord (c : ascii) : isdigit c = true <-> 48 <= ord c <= 57.
Proof. unfold isdigit. rewrite andb_true_iff, !Z.leb_le. tauto. Qed.

Lemma is_upper_not_digit (c : ascii) : is_upper c = true -> isdigit c = false.
Proof.
  rewrite is_upper_ord. intros H. apply not_true_is_false.
  rewrite isdigit_ord. lia.
Qed.

Lemma isdigit_not_upper (c : ascii) : isdigit c = true -> is_upper c = false.
Proof.
  rewrite isdigit_ord. intros H. apply not_true_is_false.
  rewrite is_upper_ord. lia.
Qed.

Lemma len_append (a b : string) : len (a +:+ b) = len a + len b.
Proof.
  unfold len. induction a as [|x a IH]; simpl_append; simpl String.length; lia.
Qed.

Lemma take_drop (n : nat) (s : string) : take n s +:+ drop n s = s.
Proof.
  revert s. induction n as [|n IH]; intros [|c s]; simpl; simpl_append; try reflexivity.
  now rewrite IH.
Qed.

Lemma length_take (n : nat) (s : string) :
  String.length (take n s) = Nat.min n (String.length s).
Proof.
  revert s. induction n as [|n IH]; intros [|c s]; simpl; try reflexivity.
  now rewrite IH.
Qed.

Lemma drop_empty_iff (n : nat) (s : string) :
  drop n s = "" <-> (String.length s <= n)%nat.
Proof.
  revert s. induction n as [|n IH]; intros [|c s]; simpl;
    try (split; [intros _; lia | reflexivity]).
  - split; [discriminate | lia].
  - rewrite IH. lia.
Qed.

Lemma take_all_iff (n : nat) (s : string) :
  take n s = s <-> (String.length s <= n)%nat.
Proof.
  split.
  - intros H. apply (f_equal String.length) in H. rewrite length_take in H. lia.
  - intros H. apply drop_empty_iff in H.
    rewrite <- (take_drop n s) at 2. rewrite H. symmetry. apply append_nil_r.
Qed.

Lemma split_nonempty (sep : ascii) (s : string) : split sep s <> [].
Proof.
  destruct s as [|c r]; simpl; [discriminate|].
  destruct (Ascii.eqb c sep); [discriminate|].
  destruct (split sep r); discriminate.
Qed.

(** Joining the pieces of a split with the separator gives the string
    back. *)
Lemma join_split (sep : ascii) (s : string) : join sep (split sep s) = s.
Proof.
  induction s as [|c r IH]; simpl; [reflexivity|].
  destruct (Ascii.eqb_spec c sep) as [->|Hne].
  - pose proof (split_nonempty sep r) as Hr.
    destruct (split sep r) as [|p ps]; [contradiction|].
    change (join sep ("" :: p :: ps)) with ("" +:+ String sep (join sep (p :: ps))).
    rewrite IH. reflexivity.
  - pose proof (split_nonempty sep r) as Hr.
    destruct (split sep r) as [|p ps]; [contradiction|].
    destruct ps as [|q ps].
    + simpl in *. now rewrite IH.
    + change (join sep (String c p :: q :: ps))
        with (String c p +:+ String sep (join sep (q :: ps))).
      change (join sep (p :: q :: ps))
        with (p +:+ String sep (join sep (q :: ps))) in IH.
      rewrite append_String, IH. reflexivity.
Qed.

(** [join] after one more piece at the end. *)
Lemma join_snoc (sep : ascii) (parts : list string) (p : string) :
  parts <> [] -> join sep (parts ++ [p]) = join sep parts +:+ String sep p.
Proof.
  induction parts as [|a parts IH]; intros Hne; [contradiction|].
  destruct parts as [|b parts].
  - reflexivity.
  - change (join sep ((a :: b :: parts) ++ [p]))
      with (a +:+ String sep (join sep ((b :: parts) ++ [p]))).
    rewrite IH by discriminate.
    change (join sep (a :: b :: parts)) with (a +:+ String sep (join sep (b :: parts))).
    rewrite append_assoc, append_String. reflexivity.
Qed.

Lemma list_index_in_range (n : nat) (i : Z) :
  0 <= i < Z.of_nat n -> list_index n i = Some (Z.to_nat i).
Proof.
  intros H. unfold list_index.
  replace (i <? 0) with false by (symmetry; apply Z.ltb_ge; lia).
  replace (0 <=? i) with true by (symmetry; apply Z.leb_le; lia).
  replace (i <? Z.of_nat n) with true by (symmetry; apply Z.ltb_lt; lia).
  reflexivity.
Qed.

Lemma all_chars_app (p : ascii -> bool) (a b : string) :
  all_chars p (a +:+ b) = all_chars p a && all_chars p b.
Proof.
  induction a as [|c a IH]; simpl_append; simpl; [reflexivity|].
  rewrite IH. apply andb_assoc.
Qed.

Lemma all_chars_impl (p q : ascii -> bool) (a : string) :
  (forall c, p c = true -> q c = true) -> all_chars p a = true -> all_chars q a = true.
Proof.
  intros Hpq. induction a as [|c a IH]; simpl; [reflexivity|].
  intros H. apply andb_prop in H as [Hc Ha]. rewrite (Hpq c Hc). apply IH, Ha.
Qed.

Lemma truthy_app_l (a b : string) : truthy a = true -> truthy (a +:+ b) = true.
Proof. destruct a; [discriminate | reflexivity]. Qed.

(** [split] at the first separator, and on a string without one. *)
Lemma split_first (sep : ascii) (a b : string) :
  all_chars (fun c => negb (Ascii.eqb c sep)) a = true ->
  split sep (a +:+ String sep b) = a :: split sep b.
Proof.
  induction a as [|c a IH]; simpl_append; simpl; intros H.
  - now rewrite Ascii.eqb_refl.
  - apply andb_prop in H as [Hc Ha]. apply negb_true_iff in Hc.
    rewrite Hc, (IH Ha). reflexivity.
Qed.

Lemma split_none (sep : ascii) (a : string) :
  all_chars (fun c => negb (Ascii.eqb c sep)) a = true -> split sep a = [a].
Proof.
  induction a as [|c a IH]; simpl; intros H; [reflexivity|].
  apply andb_prop in H as [Hc Ha]. apply negb_true_iff in Hc.
  rewrite Hc, (IH Ha). reflexivity.
Qed.

(** [strip] on a string without white space, and with spaces after it. *)
Lemma rstrip_spaces (b : string) : all_chars is_space b = true -> rstrip b = "".
Proof.
  induction b as [|c b IH]; simpl; intros H; [reflexivity|].
  apply andb_prop in H as [Hc Hb]. now rewrite (IH Hb), Hc.
Qed.

Lemma rstrip_no_space (a : string) :
  all_chars (fun c => negb (is_space c)) a = true -> rstrip a = a.
Proof.
  induction a as [|c a IH]; simpl; intros H; [reflexivity|].
  apply andb_prop in H as [Hc Ha]. apply negb_true_iff in Hc.
  rewrite (IH Ha), Hc. destruct a; reflexivity.
Qed.

Lemma rstrip_app_spaces (a b : string) :
  rstrip b = "" -> rstrip (a +:+ b) = rstrip a.
Proof.
  intros Hb. induction a as [|c a IH]; simpl_append; simpl; [exact Hb|].
  now rewrite IH.
Qed.

Lemma strip_trailing_spaces (a b : string) :
  all_chars (fun c => negb (is_space c)) a = true ->
  all_chars is_space b = true ->
  truthy a = true ->
  strip (a +:+ b) = a.
Proof.
  intros Ha Hb Hne. unfold strip.
  destruct a as [|c a]; [discriminate|].
  simpl in Ha. apply andb_prop in Ha as [Hc Ha]. apply negb_true_iff in Hc.
  rewrite append_String. simpl lstrip. rewrite Hc.
  rewrite <- append_String.
  rewrite rstrip_app_spaces by (apply rstrip_spaces, Hb).
  apply rstrip_no_space. simpl. now rewrite Hc, Ha.
Qed.

Lemma is_upper_no_space (c : ascii) : is_upper c = true -> negb (is_space c) = true.
Proof.
  rewrite is_upper_ord. intros H. unfold is_space.
  apply negb_true_iff, orb_false_iff. split; apply andb_false_iff.
  - right. apply Z.leb_gt. lia.
  - right. apply Z.leb_gt. lia.
Qed.

Lemma isdigit_no_space (c : ascii) : isdigit c = true -> negb (is_space c) = true.
Proof.
  rewrite isdigit_ord. intros H. unfold is_space.
  apply negb_true_iff, orb_false_iff. split; apply andb_false_iff.
  - right. apply Z.leb_gt. lia.
  - right. apply Z.leb_gt. lia.
Qed.

Lemma truthy_false_iff (s : string) : truthy s = false <-> s = "".
Proof. destruct s; simpl; split; congruence. Qed.

End PyFacts.

(** ** Cell keys and column names *)

Module ApiFacts.
Import Py PyFacts Api.

Lemma column_name_loop_pos (col : Z) (parts : string) :
  0 < col ->
  column_name_loop col parts
  = column_name_loop ((col - 1) / 26) (String (chr ((col - 1) mod 26 + 65)) parts).
Proof.
  intros H. rewrite column_name_loop_equation_1.
  destruct (Z_lt_dec 0 col); [reflexivity | lia].
Qed.

Lemma column_name_loop_nonpos (col : Z) (parts : string) :
  col <= 0 -> column_name_loop col parts = parts.
Proof.
  intros H. rewrite column_name_loop_equation_1.
  destruct (Z_lt_dec 0 col); [lia | reflexivity].
Qed.

Lemma index_to_col_loop_nonneg (index : Z) (col : string) :
  0 <= index ->
  index_to_col_loop index col
  = index_to_col_loop (index / 26 - 1) (String (chr (index mod 26 + 65)) col).
Proof.
  intros H. rewrite index_to_col_loop_equation_1.
  destruct (Z_le_dec 0 index); [reflexivity | lia].
Qed.

Lemma index_to_col_loop_neg (index : Z) (col : string) :
  index < 0 -> index_to_col_loop index col = col.
Proof.
  intros H. rewrite index_to_col_loop_equation_1.
  destruct (Z_le_dec 0 index); [lia | reflexivity].
Qed.

(** The two loops agree on every accumulator, by induction along the
    recursion of [column_name_loop]. *)
Lemma index_to_col_loop_column_name_loop (col : Z) (parts : string) :
  index_to_col_loop (col - 1) parts = column_name_loop col parts.
Proof.
  funelim (column_name_loop col parts).
  - rewrite index_to_col_loop_nonneg by lia.
    rewrite <- H. reflexivity.
  - rewrite index_to_col_loop_neg by lia. reflexivity.
Qed.

(** C9.  For every positive column index [n], [index_to_col n] is the
    same string as [get_column_name n]: the two base-26 encodings are
    extensionally equal. *)
Theorem index_to_col_get_column_name (n : Z) :
  0 < n -> index_to_col n = get_column_name n.
Proof.
  intros _. apply index_to_col_loop_column_name_loop.
Qed.

Lemma index_to_col_get_column_name_witness :
  0 < 703 /\ index_to_col 703 = get_column_name 703.
Proof.
  split; [lia | apply (index_to_col_get_column_name 703); lia].
Defined.

(** The equality needs no sign condition: both loops leave the empty
    string for an index that is not positive. *)
Lemma index_to_col_get_column_name_all (n : Z) : index_to_col n = get_column_name n.
Proof. apply index_to_col_loop_column_name_loop. Qed.

(** *** From a key to its column and row *)

Lemma key_loop_letters (letters rest : string) (row col : Z) :
  all_chars is_upper letters = true ->
  key_loop (letters +:+ rest) row col = key_loop rest row (letters_value letters col).
Proof.
  revert col. induction letters as [|c ls IH]; simpl_append; simpl; intros col H.
  - reflexivity.
  - apply andb_prop in H as [Hc Hls].
    rewrite (is_upper_not_digit c Hc). apply IH, Hls.
Qed.

Lemma key_loop_digits (digits : string) (row col : Z) :
  all_chars isdigit digits = true ->
  key_loop digits row col = (col, digits_value digits row).
Proof.
  revert row. induction digits as [|c ds IH]; simpl; intros row H.
  - reflexivity.
  - apply andb_prop in H as [Hc Hds]. rewrite Hc. apply IH, Hds.
Qed.

Lemma get_col_row_from_key_split (letters digits : string) :
  all_chars is_upper letters = true ->
  all_chars isdigit digits = true ->
  get_col_row_from_key (letters +:+ digits)
  = (letters_value letters 0, digits_value digits 0).
Proof.
  intros Hl Hd. unfold get_col_row_from_key.
  rewrite key_loop_letters by assumption. apply key_loop_digits, Hd.
Qed.

Lemma letters_value_lower (letters : string) (col : Z) :
  all_chars is_upper letters = true -> 0 <= col -> col <= letters_value letters col.
Proof.
  revert col. induction letters as [|c ls IH]; simpl; intros col H Hcol.
  - lia.
  - apply andb_prop in H as [Hc Hls]. apply is_upper_ord in Hc.
    change (ord "A"%char) with 65.
    specialize (IH (col * 26 + ord c - 65 + 1) Hls). lia.
Qed.

Lemma letters_value_pos (letters : string) :
  all_chars is_upper letters = true -> truthy letters = true ->
  1 <= letters_value letters 0.
Proof.
  destruct letters as [|c ls]; simpl; intros H Ht; [discriminate|].
  apply andb_prop in H as [Hc Hls]. pose proof (proj1 (is_upper_ord c) Hc).
  change (ord "A"%char) with 65.
  match goal with
  | |- 1 <= letters_value ls ?x => pose proof (letters_value_lower ls x Hls)
  end.
  lia.
Qed.

Lemma digits_value_lower (digits : string) (row : Z) :
  all_chars isdigit digits = true -> 0 <= row -> row <= digits_value digits row.
Proof.
  revert row. induction digits as [|c ds IH]; simpl; intros row H Hrow.
  - lia.
  - apply andb_prop in H as [Hc Hds]. apply isdigit_ord in Hc.
    unfold int_of_char. specialize (IH (row * 10 + (ord c - 48)) Hds). lia.
Qed.

(** *** From a column and a row back to the key *)

Lemma column_name_loop_letters (letters : string) (col : Z) (parts : string) :
  all_chars is_upper letters = true -> 0 <= col ->
  column_name_loop (letters_value letters col) parts
  = column_name_loop col (letters +:+ parts).
Proof.
  revert col. induction letters as [|c ls IH]; simpl_append; simpl; intros col H Hcol.
  - reflexivity.
  - apply andb_prop in H as [Hc Hls]. apply is_upper_ord in Hc.
    change (ord "A"%char) with 65.
    rewrite IH by (assumption || lia).
    rewrite column_name_loop_pos by lia.
    replace (col * 26 + ord c - 65 + 1 - 1) with (ord c - 65 + col * 26) by lia.
    rewrite Z.div_add, Z.mod_add by lia.
    rewrite Z.div_small, Z.mod_small by lia.
    replace (ord c - 65 + 65) with (ord c) by lia.
    rewrite chr_ord. reflexivity.
Qed.

Lemma get_column_name_letters (letters : string) :
  all_chars is_upper letters = true ->
  get_column_name (letters_value letters 0) = letters.
Proof.
  intros H. unfold get_column_name.
  rewrite column_name_loop_letters by (assumption || lia).
  rewrite column_name_loop_nonpos by lia. apply append_nil_r.
Qed.

Lemma str_digits_digits (digits : string) (row : Z) (acc : string) :
  all_chars isdigit digits = true -> 0 < row ->
  str_digits (digits_value digits row) acc = str_digits row (digits +:+ acc).
Proof.
  revert row. induction digits as [|c ds IH]; simpl_append; simpl; intros row H Hrow.
  - reflexivity.
  - apply andb_prop in H as [Hc Hds]. apply isdigit_ord in Hc.
    unfold int_of_char. rewrite IH by (assumption || lia).
    rewrite str_digits_large by lia.
    replace (row * 10 + (ord c - 48)) with (ord c - 48 + row * 10) by lia.
    rewrite Z.div_add, Z.mod_add by lia.
    rewrite Z.div_small, Z.mod_small by lia.
    replace (ord c - 48 + 48) with (ord c) by lia.
    rewrite chr_ord. reflexivity.
Qed.

(** [str] prints a numeral back when the numeral has no leading zero. *)
Lemma str_digits_value (digits : string) :
  all_chars isdigit digits = true -> truthy digits = true ->
  match digits with String "0" (String _ _) => False | _ => True end ->
  str (digits_value digits 0) = digits.
Proof.
  intros H Ht Hcanon. destruct digits as [|c ds]; [discriminate|].
  simpl in H. apply andb_prop in H as [Hc Hds].
  pose proof (proj1 (isdigit_ord c) Hc) as Hord.
  assert (Hlow : int_of_char c <= digits_value (String c ds) 0).
  { simpl. apply digits_value_lower; [assumption | unfold int_of_char; lia]. }
  unfold str. replace (digits_value (String c ds) 0 <? 0) with false
    by (symmetry; apply Z.ltb_ge; unfold int_of_char in Hlow; lia).
  simpl. unfold int_of_char.
  destruct (Z.eq_dec (ord c) 48) as [Hz|Hnz].
  - assert (c = "0"%char) as -> by (rewrite <- (chr_ord c), Hz; reflexivity).
    destruct ds as [|d ds]; [|contradiction].
    simpl. rewrite str_digits_small by lia. reflexivity.
  - rewrite str_digits_digits by (assumption || lia).
    rewrite str_digits_small by lia.
    replace (0 * 10 + (ord c - 48) + 48) with (ord c) by lia.
    rewrite chr_ord, append_nil_r. reflexivity.
Qed.

(** C1, as the code has it.  For every key made of one or more letters
    of [A-Z] followed by one or more digits whose numeral has no leading
    zero (the numeral [0] itself apart), [get_key_from_col_row] applied
    to the column and row of [get_col_row_from_key] gives the key
    back. *)
Theorem key_round_trip (k : string) :
  well_formed_key k = true ->
  canonical_row k = true ->
  let '(col, row) := get_col_row_from_key k in get_key_from_col_row col row = k.
Proof.
  unfold well_formed_key, canonical_row. intros Hwf Hcanon.
  destruct (span is_upper k) as [letters digits] eqn:Hspan.
  apply span_spec in Hspan as [-> Hletters].
  apply andb_prop in Hwf as [Hwf Hdigits]. apply andb_prop in Hwf as [_ Hne].
  rewrite get_col_row_from_key_split by assumption.
  unfold get_key_from_col_row.
  rewrite get_column_name_letters by assumption.
  rewrite str_digits_value; [reflexivity | assumption | assumption |].
  destruct digits as [|c [|d ds]]; [exact I | | ];
    destruct c as [[] [] [] [] [] [] [] []]; try exact I.
  simpl in Hcanon. discriminate.
Qed.

Lemma key_round_trip_witness :
  let '(col, row) := get_col_row_from_key "BC45" in get_key_from_col_row col row = "BC45".
Proof.
  apply (key_round_trip "BC45"); reflexivity.
Defined.

(** C1 as stated fails on a numeral with a leading zero: [A01] is a
    valid key, its column and row are 1 and 1, and they print as
    [A1]. *)
Lemma key_round_trip_leading_zero :
  well_formed_key "A01" = true /\
  match_cell_reference "A01" = true /\
  get_col_row_from_key "A01" = (1, 1) /\
  get_key_from_col_row 1 1 = "A1" /\
  (let '(col, row) := get_col_row_from_key "A01" in get_key_from_col_row col row) <> "A01".
Proof.
  repeat split; try (vm_compute; reflexivity).
  vm_compute. discriminate.
Qed.

(** *** [shorten] *)

(** The ellipsis is there exactly when the slice [s[:length - 3]] has
    cut something off, whatever the length. *)
Lemma shorten_cases (s : string) (n : Z) :
  (slice_to s (n - 3) = s -> shorten s n = s) /\
  (slice_to s (n - 3) <> s -> shorten s n = slice_to s (n - 3) +:+ "...").
Proof.
  unfold shorten, slice_to, slice_from.
  set (m := slice_bound s (n - 3)).
  destruct (truthy (drop m s)) eqn:Ht.
  - assert (Hne : take m s <> s).
    { intros Heq. apply take_all_iff, drop_empty_iff in Heq. now rewrite Heq in Ht. }
    split; [intros H; contradiction | reflexivity].
  - apply truthy_false_iff in Ht. rewrite Ht, append_nil_r.
    assert (Heq : take m s = s) by now apply take_all_iff, drop_empty_iff.
    split; [intros _; exact Heq | intros H; contradiction].
Qed.

Lemma slice_bound_nonneg (s : string) (k : Z) :
  0 <= k -> slice_bound s k = Z.to_nat (Z.min (len s) k).
Proof.
  intros H. unfold slice_bound. destruct (k <? 0) eqn:Hk; [lia | reflexivity].
Qed.

(** C7, as the code has it.  For every string [s] and every length
    [n >= 3]: [shorten s n] is [s] when [s] has at most [n - 3]
    characters, and otherwise the first [n - 3] characters of [s]
    followed by the ellipsis, [n] characters in all; so the result has
    at most [n] characters and the ellipsis is appended if and only if
    something was cut off, which is when [s] has more than [n - 3]
    characters.  [shorten "abcdefghij" 5 = "ab..."] and
    [shorten "ab" 5 = "ab"]. *)
Theorem shorten_spec (s : string) (n : Z) :
  3 <= n ->
  (len s <= n - 3 -> slice_to s (n - 3) = s /\ shorten s n = s) /\
  (n - 3 < len s ->
   slice_to s (n - 3) <> s /\
   shorten s n = take (Z.to_nat (n - 3)) s +:+ "..." /\
   len (shorten s n) = n) /\
  len (shorten s n) <= n /\
  shorten "abcdefghij" 5 = "ab..." /\
  shorten "ab" 5 = "ab".
Proof.
  intros Hn.
  destruct (shorten_cases s n) as [Hkeep Hcut].
  assert (Hm : slice_bound s (n - 3) = Z.to_nat (Z.min (len s) (n - 3)))
    by (apply slice_bound_nonneg; lia).
  assert (Hsmall : len s <= n - 3 -> slice_to s (n - 3) = s).
  { intros H. unfold slice_to. apply take_all_iff. rewrite Hm. unfold len in *. lia. }
  assert (Hlarge : n - 3 < len s ->
            slice_to s (n - 3) <> s /\ slice_to s (n - 3) = take (Z.to_nat (n - 3)) s).
  { intros H. unfold slice_to. rewrite Hm. split.
    - intros Heq. apply take_all_iff in Heq. unfold len in *. lia.
    - f_equal. lia. }
  assert (Hlen : n - 3 < len s -> len (shorten s n) = n).
  { intros H. destruct (Hlarge H) as [Hne Htake].
    rewrite (Hcut Hne), Htake, len_append. unfold len at 1.
    rewrite length_take. unfold len in *. simpl. lia. }
  split; [|split; [|split; [|split]]].
  - intros H. split; [apply Hsmall, H | apply Hkeep, Hsmall, H].
  - intros H. destruct (Hlarge H) as [Hne Htake].
    split; [exact Hne|]. split; [rewrite <- Htake; apply Hcut, Hne | apply Hlen, H].
  - destruct (Z_le_gt_dec (len s) (n - 3)) as [H|H].
    + rewrite (Hkeep (Hsmall H)). lia.
    + rewrite Hlen by lia. lia.
  - vm_compute. reflexivity.
  - vm_compute. reflexivity.
Qed.

Lemma shorten_spec_witness :
  shorten "abcd" 5 = take (Z.to_nat (5 - 3)) "abcd" +:+ "..." /\ len (shorten "abcd" 5) = 5.
Proof.
  assert (H3 : 3 <= 5) by lia.
  assert (Hlong : 5 - 3 < len "abcd") by (vm_compute; reflexivity).
  destruct (shorten_spec "abcd" 5 H3) as (_ & Hcut & _).
  destruct (Hcut Hlong) as (_ & Heq & Hlen).
  split; assumption.
Defined.

(** C7 as stated fails: [abcd] already fits in 5 characters and still
    loses its end to the ellipsis; and for a length below 3 the slice
    bound is negative, so the result is longer than the length. *)
Lemma shorten_fitting_string_cut :
  len "abcd" <= 5 /\ shorten "abcd" 5 = "ab..." /\ shorten "abcd" 5 <> "abcd" /\
  shorten "abcdefghij" 2 = "abcdefghi..." /\ 2 < len (shorten "abcdefghij" 2).
Proof.
  repeat split; try (vm_compute; reflexivity); vm_compute; discriminate.
Qed.

End ApiFacts.

(** ** The script analyzer *)

Module AnalyzerFacts.
Import Py PyFacts Api ApiFacts.

Section Intercept.
Variable ast_parse : string -> parse_result.

(** The rewrite where the line number of the last statement is an index
    of [script.split("\n")]: the empty script gives the empty string;
    otherwise, when the last top-level statement is an [Expr] or an
    [Assign] with such a line number, the piece of that number gets the
    prefix [_ = ] and every other piece is unchanged; and when the last
    statement is of any other kind, the result is the text followed by
    a new last line [_ = None]. *)
Theorem intercept_last_expression_spec (script : string) :
  (script = "" -> intercept_last_expression ast_parse script = Returns "") /\
  (forall (body : list ast) (stmt : ast),
     script <> "" ->
     ast_parse script = Module body ->
     last body = Some stmt ->
     let lines := split "010"%char script in
     (forall (cls : node_class) (lineno : Z) (fields : list ast),
        stmt = Node cls lineno fields ->
        cls = Expr \/ cls = Assign ->
        1 <= lineno <= Z.of_nat (length lines) ->
        exists lines' : list string,
          intercept_last_expression ast_parse script = Returns (join "010"%char lines') /\
          length lines' = length lines /\
          lines' !! Z.to_nat (lineno - 1)
            = (fun line => "_ = " +:+ line) <$> lines !! Z.to_nat (lineno - 1) /\
          (forall i : nat, i <> Z.to_nat (lineno - 1) -> lines' !! i = lines !! i)) /\
     ((forall (lineno : Z) (fields : list ast),
         stmt <> Node Expr lineno fields /\ stmt <> Node Assign lineno fields) ->
      intercept_last_expression ast_parse script
      = Returns (script +:+ String "010"%char "_ = None"))).
Proof.
  split.
  - intros ->. reflexivity.
  - intros body stmt Hne Hparse Hlast lines.
    assert (Htruthy : negb (truthy script) = false)
      by (destruct script; [contradiction | reflexivity]).
    unfold intercept_last_expression. rewrite Htruthy, Hparse, Hlast.
    fold lines. split.
    + intros cls lineno fields -> Hcls Hrange.
      exists (alter (fun line => "_ = " +:+ line) (Z.to_nat (lineno - 1)) lines).
      assert (Hidx : prefix_line lines (lineno - 1)
                     = Returns (alter (fun line => "_ = " +:+ line)
                                  (Z.to_nat (lineno - 1)) lines)).
      { unfold prefix_line. rewrite list_index_in_range by lia. reflexivity. }
      split; [|split; [|split]].
      * destruct Hcls as [-> | ->]; rewrite Hidx; reflexivity.
      * apply length_alter.
      * apply list_lookup_alter_eq.
      * intros i Hi. apply list_lookup_alter_ne. congruence.
    + intros Hother.
      assert (Hjoin : join "010"%char (lines ++ ["_ = None"])
                      = script +:+ String "010"%char "_ = None").
      { rewrite join_snoc by apply split_nonempty.
        unfold lines. rewrite join_split. reflexivity. }
      destruct stmt as [id ctx | value | cls lineno fields]; try (now rewrite Hjoin).
      destruct cls as [| | name]; try (now rewrite Hjoin).
      * destruct (Hother lineno fields) as [H _]. contradiction.
      * destruct (Hother lineno fields) as [_ H]. contradiction.
Qed.

(** C4.  The line of the last statement is not always prefixed: the
    function counts lines by cutting the text at line feeds only, while
    the parser also ends a line at a carriage return.  When the last
    statement is an [Expr] or an [Assign] and its line number is larger
    than the number of pieces of [script.split("\n")], the assignment
    to [lines[last.lineno - 1]] raises IndexError and no text is
    returned. *)
Theorem intercept_last_expression_line_out_of_range
    (script : string) (body : list ast) (cls : node_class) (lineno : Z) (fields : list ast) :
  script <> "" ->
  ast_parse script = Module body ->
  last body = Some (Node cls lineno fields) ->
  cls = Expr \/ cls = Assign ->
  Z.of_nat (length (split "010"%char script)) < lineno ->
  intercept_last_expression ast_parse script = Raises IndexError.
Proof.
  intros Hne Hparse Hlast Hcls Hout.
  assert (Htruthy : negb (truthy script) = false)
    by (destruct script; [contradiction | reflexivity]).
  unfold intercept_last_expression. rewrite Htruthy, Hparse, Hlast.
  assert (Hidx : prefix_line (split "010"%char script) (lineno - 1) = Raises IndexError).
  { unfold prefix_line, list_index.
    replace (lineno - 1 <? 0) with false by (symmetry; apply Z.ltb_ge; lia).
    replace (lineno - 1 <? Z.of_nat (length (split "010"%char script))) with false
      by (symmetry; apply Z.ltb_ge; lia).
    now rewrite andb_false_r. }
  destruct Hcls as [-> | ->]; rewrite Hidx; reflexivity.
Qed.

End Intercept.

(** The script [x = 1], carriage return, [y]: the parser finds two
    statements and puts [y] on line 2, and the text has no line feed. *)
Lemma intercept_last_expression_line_out_of_range_witness :
  intercept_last_expression
    (fun _ => Module [Node Assign 1 [Name "x" Store; Constant COther];
                      Node Expr 2 [Name "y" Load]])
    ("x = 1" +:+ String "013"%char "y")
  = Raises IndexError.
Proof.
  apply (intercept_last_expression_line_out_of_range
           (fun _ => Module [Node Assign 1 [Name "x" Store; Constant COther];
                             Node Expr 2 [Name "y" Load]])
           ("x = 1" +:+ String "013"%char "y")
           [Node Assign 1 [Name "x" Store; Constant COther]; Node Expr 2 [Name "y" Load]]
           Expr 2 [Name "y" Load]).
  - vm_compute. discriminate.
  - reflexivity.
  - reflexivity.
  - left. reflexivity.
  - vm_compute. reflexivity.
Defined.

(** With a line feed further on, the wrong piece gets the prefix: in
    [a], carriage return, [b], line feed, line feed, the statement [b]
    is on line 2 for the parser, and the second piece of the text is
    empty. *)
Example intercept_last_expression_wrong_piece :
  intercept_last_expression
    (fun _ => Module [Node Expr 1 [Name "a" Load]; Node Expr 2 [Name "b" Load]])
    ("a" +:+ String "013"%char ("b" +:+ String "010"%char (String "010"%char "")))
  = Returns ("a" +:+ String "013"%char
               ("b" +:+ String "010"%char ("_ = " +:+ String "010"%char ""))).
Proof. vm_compute. reflexivity. Qed.

(** The one-line script [x+1], whose parse is one [Expr] statement on
    line 1, becomes [_ = x+1]. *)
Lemma intercept_last_expression_spec_witness :
  exists lines' : list string,
    intercept_last_expression
      (fun _ => Module [Node Expr 1 [Node (OtherClass "BinOp") 1
                                       [Name "x" Load; Node (OtherClass "Add") 0 [];
                                        Constant COther]]]) "x+1"
    = Returns (join "010"%char lines') /\
    lines' !! 0%nat = Some "_ = x+1".
Proof.
  pose (parse := fun _ : string =>
          Module [Node Expr 1 [Node (OtherClass "BinOp") 1
                                 [Name "x" Load; Node (OtherClass "Add") 0 [];
                                  Constant COther]]]).
  destruct (intercept_last_expression_spec parse "x+1") as [_ H].
  assert (Hne : "x+1" <> "") by discriminate.
  destruct (H _ _ Hne eq_refl eq_refl) as [Hexpr _].
  assert (Hrange : 1 <= 1 <= Z.of_nat (length (split "010"%char "x+1")))
    by (vm_compute; split; discriminate).
  destruct (Hexpr Expr 1 _ eq_refl (or_introl eq_refl) Hrange)
    as (lines' & Hres & _ & Hline & _).
  exists lines'. split; [exact Hres | exact Hline].
Defined.

(** *** Induction on syntax trees *)

Fixpoint ast_rect_fields (P : ast -> Prop)
    (HName : forall id ctx, P (Name id ctx))
    (HConstant : forall value, P (Constant value))
    (HNode : forall cls lineno fields, Forall P fields -> P (Node cls lineno fields))
    (t : ast) : P t :=
  match t with
  | Name id ctx => HName id ctx
  | Constant value => HConstant value
  | Node cls lineno fields =>
      HNode cls lineno fields
        ((fix all (l : list ast) : Forall P l :=
            match l with
            | [] => @List.Forall_nil _ P
            | x :: l' =>
                @List.Forall_cons _ P x l' (ast_rect_fields P HName HConstant HNode x) (all l')
            end) fields)
  end.

(** *** Updates of one set object *)

Lemma grows_defined (l : nat) (P : string -> Prop) (h h' : heap) :
  grows l P h h' -> is_Some (h !! l) /\ is_Some (h' !! l).
Proof.
  intros (s & s' & Hs & -> & _). split; [eauto|].
  exists s'. apply list_lookup_insert_eq. eapply lookup_lt_Some, Hs.
Qed.

Lemma grows_skip (l : nat) (h : heap) :
  is_Some (h !! l) -> grows l (fun _ => False) h h.
Proof.
  intros [s Hs]. exists s, s. split; [exact Hs|]. split.
  - symmetry. apply list_insert_id, Hs.
  - intros k. tauto.
Qed.

Lemma grows_iff (l : nat) (P Q : string -> Prop) (h h' : heap) :
  (forall k, P k <-> Q k) -> grows l P h h' -> grows l Q h h'.
Proof.
  intros HPQ (s & s' & Hs & Hh & Hk). exists s, s'. split; [|split]; try assumption.
  intros k. rewrite Hk, HPQ. tauto.
Qed.

Lemma grows_trans (l : nat) (P Q : string -> Prop) (h h' h'' : heap) :
  grows l P h h' -> grows l Q h' h'' -> grows l (fun k => P k \/ Q k) h h''.
Proof.
  intros (s & s' & Hs & -> & Hk) (t & t' & Ht & -> & Hk').
  rewrite list_lookup_insert_eq in Ht by (eapply lookup_lt_Some, Hs).
  injection Ht as <-.
  exists s, t'. split; [exact Hs|]. split.
  - apply list_insert_insert_eq.
  - intros k. rewrite Hk', Hk. tauto.
Qed.

Lemma grows_add (l : nat) (k0 : string) (h : heap) :
  is_Some (h !! l) -> grows l (fun k => k = k0) h (set_add l k0 h).
Proof.
  intros [s Hs]. exists s, ({[ k0 ]} ∪ s). split; [exact Hs|]. split.
  - unfold set_add. apply list_eq. intros i.
    destruct (decide (i = l)) as [->|Hne].
    + rewrite list_lookup_alter_eq, Hs.
      rewrite list_lookup_insert_eq by (eapply lookup_lt_Some, Hs). reflexivity.
    + rewrite list_lookup_alter_ne, list_lookup_insert_ne by congruence. reflexivity.
  - intros k. rewrite elem_of_union, elem_of_singleton. tauto.
Qed.

(** A loop whose every step adds the keys of its item adds the keys of
    all the items. *)
Lemma grows_fold {A : Type} (l : nat) (P : A -> string -> Prop)
    (f : heap -> A -> heap) (xs : list A) (h : heap) :
  is_Some (h !! l) ->
  (forall x h0, x ∈ xs -> is_Some (h0 !! l) -> grows l (P x) h0 (f h0 x)) ->
  grows l (fun k => exists x, x ∈ xs /\ P x k) h (fold_left f xs h).
Proof.
  revert h. induction xs as [|x xs IH]; intros h Hdef Hstep; simpl.
  - eapply grows_iff; [|apply grows_skip, Hdef].
    intros k. split; [tauto|]. intros (x & Hx & _). inversion Hx.
  - assert (Hx : grows l (P x) h (f h x)) by (apply Hstep; [left | exact Hdef]).
    assert (Hrest : grows l (fun k => exists y, y ∈ xs /\ P y k) (f h x)
                      (fold_left f xs (f h x))).
    { apply IH; [apply (grows_defined _ _ _ _ Hx)|].
      intros y h0 Hy Hh0. apply Hstep; [now right | exact Hh0]. }
    eapply grows_iff; [|exact (grows_trans _ _ _ _ _ _ Hx Hrest)].
    intros k. split.
    + intros [HP | (y & Hy & HP)]; [exists x | exists y]; split; auto; now constructor.
    + intros (y & Hy & HP). apply elem_of_cons in Hy as [-> | Hy]; [left | right]; eauto.
Qed.

(** *** Keys written by [get_key_from_col_row] are cell references *)

Lemma chr_upper (r : Z) : 0 <= r < 26 -> is_upper (chr (r + 65)) = true.
Proof.
  intros H. apply is_upper_ord. rewrite ord_chr by lia. lia.
Qed.

Lemma chr_digit (r : Z) : 0 <= r < 10 -> isdigit (chr (r + 48)) = true.
Proof.
  intros H. apply isdigit_ord. rewrite ord_chr by lia. lia.
Qed.

Lemma column_name_loop_upper (col : Z) (parts : string) :
  all_chars is_upper parts = true ->
  all_chars is_upper (column_name_loop col parts) = true /\
  (0 < col \/ truthy parts = true -> truthy (column_name_loop col parts) = true).
Proof.
  funelim (column_name_loop col parts); intros Hparts.
  - destruct H as [Hall Hne].
    + simpl. rewrite Hparts, andb_true_r.
      apply chr_upper, Z.mod_pos_bound. lia.
    + split; [exact Hall|]. intros _. apply Hne. right. reflexivity.
  - split; [exact Hparts|]. intros [Hpos | Hne]; [lia | exact Hne].
Qed.

Lemma str_digits_isdigit (n : Z) (acc : string) :
  0 <= n -> all_chars isdigit acc = true ->
  all_chars isdigit (str_digits n acc) = true /\ truthy (str_digits n acc) = true.
Proof.
  funelim (str_digits n acc); intros Hn Hacc.
  - simpl. rewrite Hacc, andb_true_r. split; [|reflexivity].
    apply chr_digit. lia.
  - apply H.
    + apply Z.div_pos; lia.
    + simpl. rewrite Hacc, andb_true_r. apply chr_digit, Z.mod_pos_bound. lia.
Qed.

Lemma match_cell_reference_app (letters digits : string) :
  all_chars is_upper letters = true -> truthy letters = true ->
  all_chars isdigit digits = true -> truthy digits = true ->
  match_cell_reference (letters +:+ digits) = true.
Proof.
  intros Hl Hlne Hd Hdne. unfold match_cell_reference.
  rewrite (span_app is_upper letters digits Hl).
  - rewrite <- (append_nil_r digits) at 1.
    rewrite (span_app isdigit digits "" Hd I).
    now rewrite Hlne, Hdne.
  - destruct digits as [|c ds]; [exact I|]. simpl in Hd.
    apply andb_prop in Hd as [Hc _]. apply isdigit_not_upper, Hc.
Qed.

Lemma get_key_from_col_row_reference (col row : Z) :
  1 <= col -> 0 <= row -> match_cell_reference (get_key_from_col_row col row) = true.
Proof.
  intros Hcol Hrow. unfold get_key_from_col_row, get_column_name, str.
  replace (row <? 0) with false by (symmetry; apply Z.ltb_ge; lia).
  destruct (column_name_loop_upper col "" eq_refl) as [Hall Hne].
  destruct (str_digits_isdigit row "" Hrow eq_refl) as [Hdig Hdne].
  apply match_cell_reference_app; auto. apply Hne. left. lia.
Qed.

(** *** Strings that match the range pattern *)

(** Such a string is a key, spaces, a colon and a rest without colon;
    [split] gives these two pieces, and [strip] gives the key back. *)
Lemma range_reference_split (s : string) :
  match_cell_range_reference s = true ->
  exists letters digits blanks rest : string,
    split ":"%char s = [letters +:+ digits +:+ blanks; rest] /\
    strip (letters +:+ digits +:+ blanks) = letters +:+ digits /\
    all_chars is_upper letters = true /\ truthy letters = true /\
    all_chars isdigit digits = true /\ truthy digits = true.
Proof.
  unfold match_cell_range_reference. intros H.
  destruct (span is_upper s) as [l1 s1] eqn:E1.
  destruct (span isdigit s1) as [d1 s2] eqn:E2.
  destruct (span is_blank s2) as [b1 s3] eqn:E3.
  destruct s3 as [|c s4]; [discriminate|].
  destruct (span is_blank s4) as [b2 s5] eqn:E4.
  destruct (span is_upper s5) as [l2 s6] eqn:E5.
  destruct (span isdigit s6) as [d2 s7] eqn:E6.
  repeat (apply andb_prop in H as [H ?]).
  apply span_spec in E1 as [-> Hl1]. apply span_spec in E2 as [-> Hd1].
  apply span_spec in E3 as [-> Hb1]. apply span_spec in E4 as [-> Hb2].
  apply span_spec in E5 as [-> Hl2]. apply span_spec in E6 as [-> Hd2].
  assert (c = ":"%char) as -> by now apply Ascii.eqb_eq.
  set (colon := fun c : ascii => negb (Ascii.eqb c ":"%char)).
  assert (Hup : forall c, is_upper c = true -> colon c = true).
  { intros c Hc. apply is_upper_ord in Hc. apply negb_true_iff, Ascii.eqb_neq.
    intros ->. vm_compute in Hc. destruct Hc as [Hc _]. now apply Hc. }
  assert (Hdg : forall c, isdigit c = true -> colon c = true).
  { intros c Hc. apply isdigit_ord in Hc. apply negb_true_iff, Ascii.eqb_neq.
    intros ->. vm_compute in Hc. destruct Hc as [_ Hc]. now apply Hc. }
  assert (Hbl : forall c, is_blank c = true -> colon c = true).
  { intros c Hc. apply Ascii.eqb_eq in Hc as ->. reflexivity. }
  assert (Htail : all_chars colon s7 = true).
  { destruct s7 as [|c [|? ?]]; try discriminate; [reflexivity|].
    match goal with Hd : at_dollar _ = true |- _ => simpl in Hd; apply Ascii.eqb_eq in Hd as -> end.
    reflexivity. }
  exists l1, d1, b1, (b2 +:+ l2 +:+ d2 +:+ s7).
  split; [|split; [|repeat split; assumption]].
  - replace (l1 +:+ d1 +:+ b1 +:+ String ":" (b2 +:+ l2 +:+ d2 +:+ s7))
      with ((l1 +:+ d1 +:+ b1) +:+ String ":" (b2 +:+ l2 +:+ d2 +:+ s7))
      by (now rewrite !append_assoc).
    rewrite split_first, split_none; [reflexivity| |].
    + fold colon. rewrite !all_chars_app.
      rewrite (all_chars_impl _ _ _ Hbl Hb2), (all_chars_impl _ _ _ Hup Hl2),
        (all_chars_impl _ _ _ Hdg Hd2), Htail. reflexivity.
    + fold colon. rewrite !all_chars_app.
      rewrite (all_chars_impl _ _ _ Hup Hl1), (all_chars_impl _ _ _ Hdg Hd1),
        (all_chars_impl _ _ _ Hbl Hb1). reflexivity.
  - rewrite <- append_assoc. apply strip_trailing_spaces.
    + rewrite all_chars_app.
      rewrite (all_chars_impl _ _ _ is_upper_no_space Hl1),
        (all_chars_impl _ _ _ isdigit_no_space Hd1). reflexivity.
    + apply (all_chars_impl is_blank); [|exact Hb1].
      intros c Hc. apply Ascii.eqb_eq in Hc as ->. reflexivity.
    + now apply truthy_app_l.
Qed.

(** Every key of the rectangle of such a string passes the test of
    [add_input]. *)
Lemma in_rectangle_reference (s k : string) :
  match_cell_range_reference s = true -> in_rectangle s k ->
  match_cell_reference k = true.
Proof.
  intros Hs (start & end_ & col & row & Hsplit & Hcol & Hrow & ->).
  destruct (range_reference_split s Hs)
    as (l & d & b & rest & Hsplit' & Hstrip & Hl & Hlne & Hd & Hdne).
  rewrite Hsplit' in Hsplit. injection Hsplit as <- <-.
  rewrite Hstrip, get_col_row_from_key_split in Hcol, Hrow by assumption.
  simpl in Hcol, Hrow.
  pose proof (letters_value_pos l Hl Hlne).
  pose proof (digits_value_lower d 0 Hd).
  apply get_key_from_col_row_reference; lia.
Qed.

(** *** What the visitor adds to its set *)

Lemma add_input_grows (l : nat) (s : string) (h : heap) :
  is_Some (h !! l) ->
  grows l (fun k => k = s /\ match_cell_reference s = true) h (add_input l s h).
Proof.
  intros Hdef. unfold add_input, is_cell_reference.
  destruct (match_cell_reference s) eqn:Hs.
  - eapply grows_iff; [|apply grows_add, Hdef]. intros k. simpl. tauto.
  - eapply grows_iff; [|apply grows_skip, Hdef]. intros k. simpl.
    split; [tauto | intros [_ H]; discriminate].
Qed.

Lemma elem_of_range (x lo hi : Z) : x ∈ range lo (hi + 1) <-> lo <= x <= hi.
Proof. unfold range. rewrite elem_of_seqZ. lia. Qed.

Lemma add_rectangle_grows (l : nat) (start_col start_row end_col end_row : Z) (h : heap) :
  is_Some (h !! l) ->
  grows l
    (fun k => exists col row,
       start_col <= col <= end_col /\ start_row <= row <= end_row /\
       k = get_key_from_col_row col row /\ match_cell_reference k = true)
    h (add_rectangle l start_col start_row end_col end_row h).
Proof.
  intros Hdef. unfold add_rectangle.
  eapply grows_iff; [|apply (grows_fold l
    (fun col k => exists row, row ∈ range start_row (end_row + 1) /\
       (k = get_key_from_col_row col row /\
        match_cell_reference (get_key_from_col_row col row) = true)));
    [exact Hdef|]].
  - intros k. split.
    + intros (col & Hcol & row & Hrow & -> & Hm).
      apply elem_of_range in Hcol, Hrow. exists col, row. auto.
    + intros (col & row & Hcol & Hrow & -> & Hm).
      exists col. split; [now apply elem_of_range|].
      exists row. split; [now apply elem_of_range | auto].
  - intros col h0 _ Hh0.
    apply (grows_fold l
      (fun row k => k = get_key_from_col_row col row /\
         match_cell_reference (get_key_from_col_row col row) = true)); [exact Hh0|].
    intros row h1 _ Hh1. apply add_input_grows, Hh1.
Qed.

Lemma visit_Constant_grows (l : nat) (value : constant) (h : heap) :
  is_Some (h !! l) ->
  grows l
    (fun k => exists s, value = CStr s /\ match_cell_range_reference s = true /\
                        in_rectangle s k)
    h (visit_Constant l value h).
Proof.
  intros Hdef. unfold visit_Constant.
  destruct value as [s|]; simpl.
  - destruct (match_cell_range_reference s) eqn:Hs.
    + destruct (range_reference_split s Hs) as (ls & ds & bs & rest & Hsplit & _).
      rewrite Hsplit.
      destruct (get_col_row_from_key (strip (ls +:+ ds +:+ bs)))
        as [start_col start_row] eqn:Hstart.
      destruct (get_col_row_from_key (strip rest)) as [end_col end_row] eqn:Hend.
      eapply grows_iff; [|apply add_rectangle_grows, Hdef].
      intros k. split.
      * intros (col & row & Hcol & Hrow & -> & Hm).
        exists s. split; [reflexivity|]. split; [exact Hs|].
        exists (ls +:+ ds +:+ bs), rest, col, row.
        rewrite Hstart, Hend. auto.
      * intros (s' & [= <-] & _ & Hrect).
        pose proof (in_rectangle_reference s k Hs Hrect) as Hm.
        destruct Hrect as (start & end_ & col & row & Hsplit' & Hcol & Hrow & ->).
        rewrite Hsplit in Hsplit'. injection Hsplit' as <- <-.
        rewrite Hstart, Hend in Hcol, Hrow. exists col, row. auto.
    + eapply grows_iff; [|apply grows_skip, Hdef].
      intros k. split; [tauto|]. intros (s' & [= <-] & H & _). congruence.
  - eapply grows_iff; [|apply grows_skip, Hdef].
    intros k. split; [tauto|]. intros (s' & H & _). discriminate.
Qed.

Lemma occurs_Name_inv (n : ast) (id : string) (ctx : expr_context) :
  occurs n (Name id ctx) -> n = Name id ctx.
Proof. inversion 1; reflexivity. Qed.

Lemma occurs_Constant_inv (n : ast) (value : constant) :
  occurs n (Constant value) -> n = Constant value.
Proof. inversion 1; reflexivity. Qed.

Lemma occurs_Node_inv (n : ast) (cls : node_class) (lineno : Z) (fields : list ast) :
  occurs n (Node cls lineno fields) ->
  n = Node cls lineno fields \/ exists child, child ∈ fields /\ occurs n child.
Proof. inversion 1; subst; [left | right]; eauto. Qed.

(** The visit of a tree adds the inputs that the tree denotes, and
    nothing else. *)
Lemma visit_grows (l : nat) (t : ast) :
  forall h : heap, is_Some (h !! l) -> grows l (tree_input t) h (visit l t h).
Proof.
  induction t as [id ctx | value | cls lineno fields IH] using ast_rect_fields;
    intros h Hdef; simpl.
  - unfold visit_Name. destruct ctx.
    + eapply grows_iff; [|apply add_input_grows, Hdef]. intros k. split.
      * intros [-> Hm]. left. split; [constructor | exact Hm].
      * intros [[Hocc Hm] | (s & Hocc & _)].
        -- apply occurs_Name_inv in Hocc. injection Hocc as ->. auto.
        -- apply occurs_Name_inv in Hocc. discriminate.
    + eapply grows_iff; [|apply grows_skip, Hdef]. intros k. split; [tauto|].
      intros [[Hocc _] | (s & Hocc & _)]; apply occurs_Name_inv in Hocc; discriminate.
    + eapply grows_iff; [|apply grows_skip, Hdef]. intros k. split; [tauto|].
      intros [[Hocc _] | (s & Hocc & _)]; apply occurs_Name_inv in Hocc; discriminate.
  - eapply grows_iff; [|apply visit_Constant_grows, Hdef]. intros k. split.
    + intros (s & -> & Hs & Hrect). right. exists s. split; [constructor | auto].
    + intros [[Hocc _] | (s & Hocc & Hs & Hrect)].
      * apply occurs_Constant_inv in Hocc. discriminate.
      * apply occurs_Constant_inv in Hocc. injection Hocc as <-. exists s. auto.
  - eapply grows_iff; [|apply (grows_fold l (fun child => tree_input child)); [exact Hdef|]].
    + intros k. split.
      * intros (child & Hin & [[Hocc Hm] | (s & Hocc & Hs & Hrect)]).
        -- left. split; [eapply occurs_below; eauto | exact Hm].
        -- right. exists s. split; [eapply occurs_below; eauto | auto].
      * intros [[Hocc Hm] | (s & Hocc & Hs & Hrect)].
        -- apply occurs_Node_inv in Hocc as [Heq | (child & Hin & Hocc)]; [discriminate|].
           exists child. split; [exact Hin|]. left. auto.
        -- apply occurs_Node_inv in Hocc as [Heq | (child & Hin & Hocc)]; [discriminate|].
           exists child. split; [exact Hin|]. right. eauto.
    + intros child h0 Hin Hh0. rewrite Forall_forall in IH. apply IH; assumption.
Qed.

Section FindInputs.
Variable ast_parse : string -> parse_result.

(** A call allocates its own set and leaves the ones that exist alone;
    what the call returns lists that set. *)
Lemma find_inputs_run (script : string) (h : heap) :
  match ast_parse script with
  | Module body =>
      exists s : gset string,
        find_inputs ast_parse script h = (elements s, h ++ [s]) /\
        forall k, k ∈ s <-> is_input body k
  | ParseError => find_inputs ast_parse script h = ([], h ++ [∅])
  end.
Proof.
  unfold find_inputs. destruct (ast_parse script) as [body|]; [|reflexivity].
  assert (Hdef : is_Some ((h ++ [∅ : gset string]) !! length h)).
  { exists ∅. rewrite lookup_app_r by lia. now rewrite Nat.sub_diag. }
  destruct (grows_fold (length h) (fun stmt => tree_input stmt)
              (fun h0 stmt => visit (length h) stmt h0) body (h ++ [∅]) Hdef)
    as (s & s' & Hs & Hh & Hk).
  { intros stmt h0 _ Hh0. apply visit_grows, Hh0. }
  rewrite lookup_app_r in Hs by lia. rewrite Nat.sub_diag in Hs.
  injection Hs as <-.
  exists s'. rewrite Hh. split.
  - rewrite list_lookup_insert_eq by (rewrite length_app; simpl; lia).
    simpl. f_equal.
    rewrite insert_app_r_alt by lia. now rewrite Nat.sub_diag.
  - intros k. rewrite Hk. unfold is_input. split.
    + intros [H | H]; [now apply not_elem_of_empty in H | exact H].
    + intros H. right. exact H.
Qed.

(** The result does not depend on the store that the call starts in. *)
Lemma find_inputs_any_store (script : string) (h h' : heap) :
  (find_inputs ast_parse script h).1 = (find_inputs ast_parse script h').1.
Proof.
  pose proof (find_inputs_run script h) as H.
  pose proof (find_inputs_run script h') as H'.
  destruct (ast_parse script) as [body|].
  - destruct H as (s & -> & Hs), H' as (s' & -> & Hs'). simpl. f_equal.
    apply set_eq. intros k. now rewrite Hs, Hs'.
  - now rewrite H, H'.
Qed.

(** C3.  For every script text whose parse succeeds, the keys that
    [find_inputs] returns are exactly the identifiers in read context
    that match the cell pattern together with the cells of the
    rectangle of every string literal that matches the range pattern,
    each listed once; a target of an assignment is not among them
    unless it is also read.  A script that parses as [example_body]
    (it reads [A1] and [B2] and holds the literal ["A1:A3"]) yields
    [A1], [A2], [A3] and [B2].  For a script whose parse raises a syntax
    error the result is the empty list. *)
Theorem find_inputs_spec (script : string) (h : heap) :
  (forall body : list ast,
     ast_parse script = Module body ->
     NoDup (find_inputs ast_parse script h).1 /\
     forall k : string, k ∈ (find_inputs ast_parse script h).1 <-> is_input body k) /\
  (ast_parse script = Module example_body ->
     forall k : string,
       k ∈ (find_inputs ast_parse script h).1 <-> k ∈ ["A1"; "A2"; "A3"; "B2"]) /\
  (ast_parse script = ParseError -> (find_inputs ast_parse script h).1 = []).
Proof.
  split; [|split].
  - intros body Hparse. pose proof (find_inputs_run script h) as H.
    rewrite Hparse in H. destruct H as (s & -> & Hs). simpl. split.
    + apply NoDup_elements.
    + intros k. rewrite elem_of_elements. apply Hs.
  - intros Hparse k. rewrite (find_inputs_any_store script h []).
    unfold find_inputs. rewrite Hparse.
    replace (fold_left (fun h0 stmt => visit (length ([] : heap)) stmt h0)
               example_body ([] ++ [∅]))
      with [({[ "A3"; "A1"; "A2"; "B2" ]} : gset string)]
      by (vm_compute; reflexivity).
    simpl. rewrite elem_of_elements. set_unfold. tauto.
  - intros Hparse. pose proof (find_inputs_run script h) as H.
    rewrite Hparse in H. now rewrite H.
Qed.

(** C10, as the code has it.  The class statement is in the body of
    [find_inputs], so every call makes a new class with a new, empty
    set: the second of two successive calls returns what it returns in
    a process that has made no call before, and the set of the first
    call stays as it was when that call returned. *)
Theorem find_inputs_fresh_set (s1 s2 : string) (h : heap) :
  let h1 := (find_inputs ast_parse s1 h).2 in
  (find_inputs ast_parse s2 h1).1 = (find_inputs ast_parse s2 []).1 /\
  exists inputs2 : gset string,
    (find_inputs ast_parse s2 h1).2 = h1 ++ [inputs2] /\
    (find_inputs ast_parse s2 h1).1 = elements inputs2.
Proof.
  intros h1. split; [apply find_inputs_any_store|].
  pose proof (find_inputs_run s2 h1) as H.
  destruct (ast_parse s2) as [body|].
  - destruct H as (s & -> & _). exists s. split; reflexivity.
  - rewrite H. exists ∅. split; [reflexivity|]. simpl. now rewrite elements_empty.
Qed.

End FindInputs.

Lemma find_inputs_spec_witness :
  "A2" ∈ (find_inputs (fun _ => Module example_body) "C1 = A1 + B2 + f('A1:A3')" []).1 /\
  "C1" ∉ (find_inputs (fun _ => Module example_body) "C1 = A1 + B2 + f('A1:A3')" []).1.
Proof.
  destruct (find_inputs_spec (fun _ => Module example_body)
              "C1 = A1 + B2 + f('A1:A3')" []) as (_ & Hexample & _).
  split.
  - apply (Hexample eq_refl). right. left.
  - intros H. apply (Hexample eq_refl) in H.
    repeat (apply elem_of_cons in H as [H | H]; [discriminate|]).
    now apply elem_of_nil in H.
Defined.

(** C10 as stated fails: after a call on a script that reads [A1], a
    call on a script that reads [B2] returns [B2] alone. *)
Lemma find_inputs_does_not_accumulate :
  let '(r1, h1) := find_inputs example_parse "A1" [] in
  let '(r2, h2) := find_inputs example_parse "B2" h1 in
  r1 = ["A1"] /\ r2 = ["B2"] /\ "A1" ∉ r2.
Proof.
  vm_compute. split; [reflexivity|]. split; [reflexivity|].
  intros H. apply list_elem_of_singleton in H. discriminate.
Qed.

End AnalyzerFacts.

(** ** The network trampoline *)

Module TrampolineFacts.
Import Py Api.

Section Get.
Variable time_time : nat -> float.
Variable xhr_get : nat -> string -> Z * string.

(** Without a usable cache entry, [get] is the request and what
    follows it. *)
Lemma fetch_spec (url : string) (st : net) :
  let '(status, responseText) := xhr_get (length (requests st)) url in
  requests (fetch time_time xhr_get url st).2 = url :: requests st /\
  (status <> 200 ->
   (fetch time_time xhr_get url st).1
   = Raises (IOError ("HTTP Error: " +:+ str status +:+ " for " +:+ url)) /\
   network_cache (fetch time_time xhr_get url st).2 = network_cache st /\
   clock_reads (fetch time_time xhr_get url st).2 = clock_reads st) /\
  (status = 200 ->
   (fetch time_time xhr_get url st).1 = Returns responseText /\
   network_cache (fetch time_time xhr_get url st).2
   = <[url := (time_time (clock_reads st), responseText)]> (network_cache st) /\
   clock_reads (fetch time_time xhr_get url st).2 = S (clock_reads st)).
Proof.
  unfold fetch. destruct (xhr_get (length (requests st)) url) as [status body].
  destruct (Z.eqb_spec status 200) as [-> | Hne]; simpl.
  - split; [reflexivity|]. split; [intros H; contradiction | auto].
  - split; [reflexivity|]. split; [auto | intros H; contradiction].
Qed.

(** C2.  For every URL and every state of the cache: when the cache
    holds an entry for the URL that is younger than 60 seconds, [get]
    returns the cached text, sends no request and leaves the cache as
    it is; otherwise it sends one GET, and then a status other than 200
    raises the IOError that names the status and the URL and leaves the
    cache as it is, while the status 200 stores the text under the URL
    with the time read at that moment and returns the text.  The legacy
    [get] is the same function. *)
Theorem get_cache_checked (url : string) (st : net) :
  let now := time_time (clock_reads st) in
  let result := get time_time xhr_get url st in
  (forall (when : float) (value : string),
     network_cache st !! url = Some (when, value) ->
     PrimFloat.ltb (now - when)%float 60%float = true ->
     result.1 = Returns value /\
     requests result.2 = requests st /\
     network_cache result.2 = network_cache st) /\
  (network_cache st !! url = None \/
   (exists (when : float) (value : string),
      network_cache st !! url = Some (when, value) /\
      PrimFloat.ltb (now - when)%float 60%float = false) ->
   let '(status, responseText) := xhr_get (length (requests st)) url in
   requests result.2 = url :: requests st /\
   (status <> 200 ->
    result.1 = Raises (IOError ("HTTP Error: " +:+ str status +:+ " for " +:+ url)) /\
    network_cache result.2 = network_cache st) /\
   (status = 200 ->
    exists n : nat,
      clock_reads result.2 = S n /\
      result.1 = Returns responseText /\
      network_cache result.2 = <[url := (time_time n, responseText)]> (network_cache st))) /\
  LegacyApi.get time_time xhr_get = get time_time xhr_get.
Proof.
  intros now result. split; [|split].
  - intros when value Hentry Hyoung. unfold result, get.
    rewrite Hentry. fold now. rewrite Hyoung. auto.
  - intros Hcase. unfold result, get.
    destruct Hcase as [Hnone | (when & value & Hentry & Hstale)].
    + rewrite Hnone. pose proof (fetch_spec url st) as H.
      destruct (xhr_get (length (requests st)) url) as [status body].
      destruct H as (Hreq & Herr & Hok).
      split; [exact Hreq|]. split.
      * intros Hs. destruct (Herr Hs) as (? & ? & _). auto.
      * intros Hs. destruct (Hok Hs) as (? & ? & ?). exists (clock_reads st). auto.
    + rewrite Hentry. fold now. rewrite Hstale.
      pose proof (fetch_spec url (Net (network_cache st) (S (clock_reads st)) (requests st)))
        as H.
      simpl in H. destruct (xhr_get (length (requests st)) url) as [status body].
      destruct H as (Hreq & Herr & Hok).
      split; [exact Hreq|]. split.
      * intros Hs. destruct (Herr Hs) as (? & ? & _). auto.
      * intros Hs. destruct (Hok Hs) as (? & ? & ?). exists (S (clock_reads st)). auto.
  - reflexivity.
Qed.

End Get.

(** A clock that reads 100, 130, 170, ... seconds and a server that
    answers 200 with the text [aGk=]: an entry stored at 100 is served
    from the cache at 130. *)
Lemma get_cache_checked_witness :
  (get (fun n => if Nat.eqb n 0 then 130%float else 170%float)
       (fun _ _ => (200, "aGk="))
       "/load?url=x" (Net {[ "/load?url=x" := (100%float, "aGk=") ]} 0 ["/load?url=x"])).1
  = Returns "aGk=".
Proof.
  pose (clock := fun n : nat => if Nat.eqb n 0 then 130%float else 170%float).
  pose (server := fun (_ : nat) (_ : string) => (200, "aGk=")).
  pose (st := Net {[ "/load?url=x" := (100%float, "aGk=") ]} 0 ["/load?url=x"]).
  destruct (get_cache_checked clock server "/load?url=x" st) as (Hfresh & _).
  destruct (Hfresh 100%float "aGk=") as (Hres & _).
  - vm_compute. reflexivity.
  - vm_compute. reflexivity.
  - exact Hres.
Defined.

(** Two fetches within 60 seconds send one request, a third one after
    more than 60 seconds sends a second request. *)
Example get_three_fetches :
  let clock := fun n : nat =>
    match n with 0%nat => 100%float | 1%nat => 130%float | _ => 170%float end in
  let server := fun (_ : nat) (_ : string) => (200, "aGk=") in
  let st1 := (get clock server "/x" (Net ∅ 0 [])).2 in
  let st2 := (get clock server "/x" st1).2 in
  let st3 := (get clock server "/x" st2).2 in
  requests st1 = ["/x"] /\ requests st2 = ["/x"] /\ requests st3 = ["/x"; "/x"].
Proof. vm_compute. auto. Qed.

End TrampolineFacts.

(** ** The data facade *)

Module FacadeFacts.
Import Py Api.

(** C5: the failing input.  A facade made without inputs, or with the
    empty dict, holds the list [[]] in [_inputs]; [sheet] then calls
    [get] on a list and raises AttributeError where the claim has it
    read the empty string for the missing keys. *)
Theorem sheet_without_inputs_raises (frame other : Type)
    (from_dict : columns -> outcome (frame + other)) (headers : bool) :
  sheet frame other from_dict (init_inputs (Some ∅)) "A1:A2" headers = Raises AttributeError /\
  sheet frame other from_dict (init_inputs None) "A1:A2" headers = Raises AttributeError.
Proof. split; reflexivity. Qed.

Section Sheet.
Variables frame other : Type.
Variable from_dict : columns -> outcome (frame + other).

(** With a mapping in [_inputs], a key that is missing reads as the
    empty string. *)
Lemma inputs_get_missing (d : gmap string value) (key : string) :
  d !! key = None -> inputs_get (Mapping d) key = Returns (VStr "").
Proof. intros H. unfold inputs_get. now rewrite H. Qed.

Lemma sheet_missing_keys_read_empty :
  sheet frame other from_dict (init_inputs (Some {[ "A1" := VStr "name" ]})) "A1:A3" true
  = df ← from_dict [(VStr "name", [VStr ""; VStr ""])];
    match df with
    | inl df => Returns (Frame df)
    | inr _ => Returns (Text "Error: Incomplete Data")
    end.
Proof. reflexivity. Qed.

(** When the columns are assembled and [from_dict] returns an object
    that is not a data frame, [sheet] returns the error string; when
    [from_dict] raises, so does [sheet]. *)
Lemma sheet_not_a_frame (self_inputs : inputs_attr) (start end_ : string)
    (headers : bool) (data : columns) (o : other) :
  sheet_columns (inputs_get self_inputs) (fun col row => index_to_col col +:+ str row)
    headers (get_col_row_from_key start).2 (get_col_row_from_key end_).2
    (range (get_col_row_from_key start).1 ((get_col_row_from_key end_).1 + 1)) []
  = Returns data ->
  split ":"%char (start +:+ String ":"%char end_) = [start; end_] ->
  from_dict data = Returns (inr o) ->
  sheet frame other from_dict self_inputs (start +:+ String ":"%char end_) headers
  = Returns (Text "Error: Incomplete Data").
Proof.
  intros Hcols Hsplit Hfrom. unfold sheet. rewrite Hsplit.
  destruct (get_col_row_from_key start) as [start_col start_row].
  destruct (get_col_row_from_key end_) as [end_col end_row].
  simpl in Hcols. rewrite Hcols. simpl. rewrite Hfrom. reflexivity.
Qed.

End Sheet.

(** The legacy [sheet] indexes the mapping: a missing key raises
    KeyError. *)
Lemma comprehension_missing_key (inputs : gmap string value) (keys : list string) :
  (exists key, key ∈ keys /\ inputs !! key = None) ->
  exists key, key ∈ keys /\ inputs !! key = None /\
    comprehension (LegacyApi.inputs_item inputs) keys = Raises (KeyError key).
Proof.
  induction keys as [|k keys IH]; intros (key & Hin & Hnone).
  - inversion Hin.
  - change (comprehension (LegacyApi.inputs_item inputs) (k :: keys))
      with (b ← LegacyApi.inputs_item inputs k;
            bs ← comprehension (LegacyApi.inputs_item inputs) keys;
            Returns (b :: bs)).
    replace (LegacyApi.inputs_item inputs k)
      with (match inputs !! k with
            | Some v => Returns v
            | None => Raises (KeyError k)
            end) by reflexivity.
    destruct (inputs !! k) as [v|] eqn:Hk.
    + apply elem_of_cons in Hin as [-> | Hin]; [congruence|].
      destruct IH as (key' & Hin' & Hnone' & Hraise); [eauto|].
      exists key'. split; [now right|]. split; [exact Hnone'|].
      rewrite Hraise. reflexivity.
    + exists k. split; [now left | auto].
Qed.

Lemma comprehension_item_cases (inputs : gmap string value) (keys : list string) :
  (exists values, comprehension (LegacyApi.inputs_item inputs) keys = Returns values /\
                  length values = length keys) \/
  (exists key, key ∈ keys /\ inputs !! key = None /\
               comprehension (LegacyApi.inputs_item inputs) keys = Raises (KeyError key)).
Proof.
  destruct (decide (Exists (fun key => inputs !! key = None) keys)) as [Hex | Hall].
  - right. apply comprehension_missing_key. apply Exists_exists in Hex. exact Hex.
  - left. apply not_Exists_Forall in Hall; [|intros key; apply _].
    induction keys as [|k keys IH]; [exists []; auto|].
    apply Forall_cons in Hall as [Hk Hkeys].
    destruct (IH Hkeys) as (values & Hvalues & Hlen).
    destruct (inputs !! k) as [v|] eqn:Hlook; [|now contradict Hk].
    exists (v :: values). split; [|simpl; now rewrite Hlen].
    change (comprehension (LegacyApi.inputs_item inputs) (k :: keys))
      with (b ← LegacyApi.inputs_item inputs k;
            bs ← comprehension (LegacyApi.inputs_item inputs) keys;
            Returns (b :: bs)).
    replace (LegacyApi.inputs_item inputs k) with (Returns (A:=value) v)
      by (unfold LegacyApi.inputs_item; now rewrite Hlook).
    rewrite Hvalues. reflexivity.
Qed.

(** The loop over the columns stops with KeyError at the first column
    that has a missing key. *)
Lemma sheet_columns_missing_key (inputs : gmap string value) (key_of : Z -> Z -> string)
    (headers : bool) (start_row end_row : Z) (cols : list Z) (data : columns) :
  (exists col row, col ∈ cols /\ start_row <= row <= end_row /\
                   inputs !! key_of col row = None) ->
  exists key, inputs !! key = None /\
    sheet_columns (LegacyApi.inputs_item inputs) key_of headers start_row end_row cols data
    = Raises (KeyError key).
Proof.
  revert data. induction cols as [|c cols IH]; intros data (col & row & Hcol & Hrow & Hnone).
  - inversion Hcol.
  - change (sheet_columns (LegacyApi.inputs_item inputs) key_of headers start_row end_row
              (c :: cols) data)
      with (data' ← sheet_column (LegacyApi.inputs_item inputs) key_of headers
                      start_row end_row c data;
            sheet_columns (LegacyApi.inputs_item inputs) key_of headers start_row end_row
              cols data').
    unfold sheet_column.
    destruct (comprehension_item_cases inputs (map (key_of c) (range start_row (end_row + 1))))
      as [(values & Hvalues & Hlen) | (key & _ & Hkey & Hraise)].
    + rewrite Hvalues.
      assert (Hrest : col ∈ cols).
      { apply elem_of_cons in Hcol as [-> | Hcol]; [|exact Hcol]. exfalso.
        destruct (comprehension_missing_key inputs
                    (map (key_of c) (range start_row (end_row + 1))))
          as (key & _ & _ & Hraise); [|congruence].
        exists (key_of c row). split; [|exact Hnone].
        apply list_elem_of_fmap. exists row. split; [reflexivity|].
        unfold range. apply elem_of_seqZ. lia. }
      assert (Hne : values <> []).
      { intros ->. simpl in Hlen. symmetry in Hlen.
        rewrite length_map in Hlen. unfold range in Hlen.
        rewrite length_seqZ in Hlen. lia. }
      destruct values as [|v values]; [contradiction|].
      destruct headers; simpl; apply IH; eauto.
    + rewrite Hraise. exists key. auto.
Qed.

(** The legacy [sheet] raises KeyError for a selection that holds a
    key the inputs do not have. *)
Lemma legacy_sheet_missing_key_raises (object : Type) (from_dict : columns -> outcome object)
    (inputs : gmap string value) (selection start end_ : string) (headers : bool)
    (start_col start_row end_col end_row : Z) :
  split ":"%char selection = [start; end_] ->
  LegacyApi.unpack_col_row start = Returns (start_col, start_row) ->
  LegacyApi.unpack_col_row end_ = Returns (end_col, end_row) ->
  (exists col row, start_col <= col <= end_col /\ start_row <= row <= end_row /\
     inputs !! String (Py.chr (Py.ord "A"%char + col - 1)) (str row) = None) ->
  exists key, inputs !! key = None /\
    LegacyApi.sheet object from_dict inputs selection headers = Raises (KeyError key).
Proof.
  intros Hsplit Hstart Hend (col & row & Hcol & Hrow & Hnone).
  unfold LegacyApi.sheet. rewrite Hsplit, Hstart. simpl. rewrite Hend. simpl.
  destruct (sheet_columns_missing_key inputs
              (fun col row => String (Py.chr (Py.ord "A"%char + col - 1)) (str row))
              headers start_row end_row (range start_col (end_col + 1)) [])
    as (key & Hkey & Hraise).
  - exists col, row. split; [|auto]. unfold range. apply elem_of_seqZ. lia.
  - exists key. split; [exact Hkey|]. now rewrite Hraise.
Qed.

Example legacy_sheet_missing_key (object : Type) (from_dict : columns -> outcome object) :
  LegacyApi.sheet object from_dict {[ "A1" := VStr "name" ]} "A1:A2" true
  = Raises (KeyError "A2").
Proof. reflexivity. Qed.

End FacadeFacts.

(** ** Split panes *)

Module WidgetsFacts.
Import Widgets.

(** C6, as the code has it.  For every split pane with ratio [r]:
    [layout] sets the size of the first pane to [r * T + d] and the size
    of the last pane to [(1 - r) * T - d], where [T] and [d] are what
    [get_size] gives for the pane and for the divider, that is their
    measured size along the axis or 1 when that is not more than 1;
    then it puts the divider at 0, triggers [layout] on both panes and
    stores the ratio.  With a container of size 100, a divider of size
    0 and the ratio 0.3 the first pane is set to 31 and the last pane to
    69. *)
Theorem layout_sizes (self : split_pane) :
  let T := max1 (match pane_direction self with
                 | Horizontal => width (element self Self)
                 | Vertical => height (element self Self)
                 end) in
  let d := max1 (match pane_direction self with
                 | Horizontal => width (element self Middle)
                 | Vertical => height (element self Middle)
                 end) in
  layout self
  = [ SetSize First (ratio self * T + d)%float;
      SetSize Last ((1 - ratio self) * T - d)%float;
      SetPosition Middle 0;
      Trigger First "layout";
      Trigger Last "layout";
      SetItem (key self) (ratio self) ] /\
  layout example_pane
  = [ SetSize First 31%float;
      SetSize Last 69%float;
      SetPosition Middle 0;
      Trigger First "layout";
      Trigger Last "layout";
      SetItem "split-main" 0x1.3333333333333p-2%float ].
Proof.
  split.
  - unfold layout, get_size. destruct (pane_direction self); reflexivity.
  - vm_compute. reflexivity.
Qed.

(** C6 as stated fails on its own example: [get_size] gives 1 for the
    divider of size 0, so the first pane is set to 31 and the last
    pane to 69, not to 30 and 70. *)
Lemma layout_divider_of_size_zero :
  width (element example_pane Self) = 100%float /\
  width (element example_pane Middle) = 0%float /\
  In (SetSize First 31%float) (layout example_pane) /\
  In (SetSize Last 69%float) (layout example_pane) /\
  ~ In (SetSize First 30%float) (layout example_pane) /\
  ~ In (SetSize Last 70%float) (layout example_pane).
Proof.
  assert (H31 : 31%float <> 30%float).
  { intros H. apply (f_equal (fun x => PrimFloat.ltb 30 x)) in H.
    vm_compute in H. discriminate. }
  assert (H69 : 69%float <> 70%float).
  { intros H. apply (f_equal (fun x => PrimFloat.ltb x 70)) in H.
    vm_compute in H. discriminate. }
  split; [reflexivity|]. split; [reflexivity|].
  replace (layout example_pane)
    with [ SetSize First 31%float; SetSize Last 69%float; SetPosition Middle 0;
           Trigger First "layout"; Trigger Last "layout";
           SetItem "split-main" 0x1.3333333333333p-2%float ]
    by (vm_compute; reflexivity).
  split; [left; reflexivity|]. split; [right; left; reflexivity|].
  split; intros H; simpl in H;
    repeat (destruct H as [H | H]; [try discriminate; injection H as H; auto|]);
    exact H.
Qed.

End WidgetsFacts.

(** ** The edit history *)

Module HistoryFacts.
Import History.

Section Undo.
Variable Sheet : Type.
#[local] Abbreviation edit := (edit Sheet).
#[local] Abbreviation state := (state Sheet).

(** The loop pops the edits that fail and stops at the first that
    succeeds. *)
Lemma undo_loop_success (failed : list edit) (e : edit) (rest : list edit)
    (scheduled printed : list string) (sheet sheet1 sheet2 : Sheet) :
  all_fail Sheet failed sheet sheet1 ->
  edit_undo Sheet e sheet1 = (true, sheet2) ->
  undo_loop Sheet (failed ++ e :: rest) scheduled printed sheet
  = (rest, schedule_flush scheduled, ("undo " +:+ edit_repr Sheet e) :: printed, sheet2).
Proof.
  intros Hfail Hok. induction Hfail as [sheet | e' es sheet sheet' sheet'' He' _ IH]; simpl.
  - now rewrite Hok.
  - rewrite He'. apply IH, Hok.
Qed.

Lemma undo_loop_all_fail (stack : list edit) (scheduled printed : list string)
    (sheet sheet1 : Sheet) :
  all_fail Sheet stack sheet sheet1 ->
  undo_loop Sheet stack scheduled printed sheet = ([], scheduled, printed, sheet1).
Proof.
  intros Hfail. induction Hfail as [sheet | e es sheet sheet' sheet'' He _ IH]; simpl.
  - reflexivity.
  - rewrite He. exact IH.
Qed.

(** One of the two cases holds for every stack and every sheet. *)
Lemma stack_cases (stack : list edit) (sheet : Sheet) :
  (exists failed e rest sheet1 sheet2,
     stack = failed ++ e :: rest /\ all_fail Sheet failed sheet sheet1 /\
     edit_undo Sheet e sheet1 = (true, sheet2)) \/
  (exists sheet1, all_fail Sheet stack sheet sheet1).
Proof.
  revert sheet. induction stack as [|e stack IH]; intros sheet.
  - right. exists sheet. constructor.
  - destruct (edit_undo Sheet e sheet) as [[] sheet'] eqn:He.
    + left. exists [], e, stack, sheet, sheet'. split; [reflexivity|].
      split; [constructor | exact He].
    + destruct (IH sheet') as [(failed & e0 & rest & s1 & s2 & -> & Hfail & Hok) | (s1 & Hfail)].
      * left. exists (e :: failed), e0, rest, s1, s2. split; [reflexivity|].
        split; [econstructor; eauto | exact Hok].
      * right. exists s1. econstructor; eauto.
Qed.

(** C8.  For every history and every sheet: when [e] is the latest
    edit whose [undo] succeeds, every later edit failing in turn from
    the latest one back, [undo] leaves the edits before [e] in the
    history, schedules one flush, and the sheet is the one that these
    undos made; when every edit fails, the history is left empty,
    nothing is scheduled and nothing else changes; and one of the two
    is always the case, so the edits that were popped are gone from the
    history. *)
Theorem undo_spec (st : state) (sheet : Sheet) :
  (forall (older : list edit) (e : edit) (newer : list edit) (sheet1 sheet2 : Sheet),
     history Sheet st = older ++ e :: newer ->
     all_fail Sheet (rev newer) sheet sheet1 ->
     edit_undo Sheet e sheet1 = (true, sheet2) ->
     undo Sheet st sheet
     = (State Sheet older ("flush events" :: scheduled Sheet st)
          (("undo " +:+ edit_repr Sheet e) :: printed Sheet st),
        sheet2)) /\
  (forall sheet1 : Sheet,
     all_fail Sheet (rev (history Sheet st)) sheet sheet1 ->
     undo Sheet st sheet = (State Sheet [] (scheduled Sheet st) (printed Sheet st), sheet1)) /\
  ((exists (older : list edit) (e : edit) (newer : list edit) (sheet1 sheet2 : Sheet),
      history Sheet st = older ++ e :: newer /\
      all_fail Sheet (rev newer) sheet sheet1 /\
      edit_undo Sheet e sheet1 = (true, sheet2)) \/
   (exists sheet1 : Sheet, all_fail Sheet (rev (history Sheet st)) sheet sheet1)).
Proof.
  split; [|split].
  - intros older e newer sheet1 sheet2 Hhist Hfail Hok. unfold undo.
    rewrite Hhist, rev_app_distr. simpl. rewrite <- app_assoc. simpl.
    rewrite (undo_loop_success _ _ _ _ _ _ _ _ Hfail Hok).
    now rewrite rev_involutive.
  - intros sheet1 Hfail. unfold undo.
    now rewrite (undo_loop_all_fail _ _ _ _ _ Hfail).
  - destruct (stack_cases (rev (history Sheet st)) sheet)
      as [(failed & e & rest & s1 & s2 & Hstack & Hfail & Hok) | Hall].
    + left. exists (rev rest), e, (rev failed), s1, s2. split; [|split].
      * rewrite <- (rev_involutive (history Sheet st)), Hstack.
        rewrite rev_app_distr. simpl. now rewrite <- app_assoc.
      * now rewrite rev_involutive.
      * exact Hok.
    + right. exact Hall.
Qed.

End Undo.

Lemma undo_spec_witness :
  undo nat
    (State nat [example_succeeds "first"; example_fails "second"; example_fails "third"]
       [] [])
    0%nat
  = (State nat [] ["flush events"] ["undo first"], 3%nat).
Proof.
  destruct (undo_spec nat
              (State nat [example_succeeds "first"; example_fails "second";
                          example_fails "third"] [] []) 0%nat) as (Hsuccess & _).
  apply (Hsuccess [] (example_succeeds "first")
           [example_fails "second"; example_fails "third"] 2%nat 3%nat).
  - reflexivity.
  - simpl. eapply all_fail_cons; [reflexivity|].
    eapply all_fail_cons; [reflexivity|]. apply all_fail_nil.
  - reflexivity.
Defined.

End HistoryFacts.

(** * Further properties *)

(** ** Keys, column names and patterns *)

Module KeyFacts.
Import Py PyFacts Api ApiFacts AnalyzerFacts Values.

Lemma letters_value_column_name_loop (col : Z) (parts : string) :
  0 <= col -> letters_value (column_name_loop col parts) 0 = letters_value parts col.
Proof.
  funelim (column_name_loop col parts); intros Hcol.
  - rewrite H by (apply Z.div_pos; lia). simpl.
    change (ord "A"%char) with 65.
    pose proof (Z.mod_pos_bound (col - 1) 26) as Hmod.
    rewrite ord_chr by lia. f_equal.
    pose proof (Z.div_mod (col - 1) 26). lia.
  - f_equal. lia.
Qed.

Lemma digits_value_str_digits (n : Z) (acc : string) :
  0 <= n -> digits_value (str_digits n acc) 0 = digits_value acc n.
Proof.
  funelim (str_digits n acc); intros Hn.
  - simpl. unfold int_of_char. rewrite ord_chr by lia. f_equal. lia.
  - rewrite H by (apply Z.div_pos; lia). simpl. unfold int_of_char.
    pose proof (Z.mod_pos_bound n 10) as Hmod.
    rewrite ord_chr by lia. f_equal.
    pose proof (Z.div_mod n 10). lia.
Qed.

Lemma get_col_row_of_key (col row : Z) :
  0 <= col -> 0 <= row ->
  get_col_row_from_key (get_key_from_col_row col row) = (col, row).
Proof.
  intros Hcol Hrow. unfold get_key_from_col_row, get_column_name, str.
  replace (row <? 0) with false by (symmetry; apply Z.ltb_ge; lia).
  destruct (column_name_loop_upper col "" eq_refl) as [Hupper _].
  destruct (str_digits_isdigit row "" Hrow eq_refl) as [Hdigit _].
  rewrite get_col_row_from_key_split by assumption.
  rewrite letters_value_column_name_loop, digits_value_str_digits by assumption.
  reflexivity.
Qed.

(** X1.  For every column [col >= 0] and row [row >= 0], reading the
    key that [get_key_from_col_row] writes gives the column and the row
    back. *)
Theorem key_of_col_row_round_trip (col row : Z) :
  0 <= col -> 0 <= row ->
  get_col_row_from_key (get_key_from_col_row col row) = (col, row).
Proof. apply get_col_row_of_key. Qed.

Lemma key_of_col_row_round_trip_witness :
  get_col_row_from_key (get_key_from_col_row 703 120) = (703, 120).
Proof. apply (key_of_col_row_round_trip 703 120); lia. Defined.

(** X2.  Two different cells have different keys: on columns and rows
    that are not negative [get_key_from_col_row] is injective. *)
Theorem get_key_from_col_row_injective (col row col' row' : Z) :
  0 <= col -> 0 <= row -> 0 <= col' -> 0 <= row' ->
  col <> col' \/ row <> row' ->
  get_key_from_col_row col row <> get_key_from_col_row col' row'.
Proof.
  intros Hc Hr Hc' Hr' Hne Heq.
  apply (f_equal get_col_row_from_key) in Heq.
  rewrite !get_col_row_of_key in Heq by assumption.
  injection Heq as -> ->. destruct Hne as [H | H]; now apply H.
Qed.

Lemma get_key_from_col_row_injective_witness :
  get_key_from_col_row 27 3 <> get_key_from_col_row 3 27.
Proof.
  apply (get_key_from_col_row_injective 27 3 3 27); try lia.
Defined.

Lemma column_name_loop_app (col : Z) (parts : string) :
  forall acc : string,
    column_name_loop col (parts +:+ acc) = column_name_loop col parts +:+ acc.
Proof.
  funelim (column_name_loop col parts); intros acc.
  - rewrite column_name_loop_pos by lia. rewrite <- H. reflexivity.
  - rewrite column_name_loop_nonpos by lia. reflexivity.
Qed.

(** X3.  The name of column [26 * col + v], for a letter number [v]
    from 1 to 26, is the name of column [col] followed by the [v]-th
    letter: column names are the numerals of base 26 without a zero
    digit. *)
Theorem get_column_name_step (col v : Z) :
  0 <= col -> 1 <= v <= 26 ->
  get_column_name (26 * col + v) = get_column_name col +:+ String (chr (v + 64)) "".
Proof.
  intros Hcol Hv. unfold get_column_name.
  rewrite column_name_loop_pos by lia.
  replace (26 * col + v - 1) with (v - 1 + col * 26) by lia.
  rewrite Z.div_add, Z.mod_add by lia.
  rewrite Z.div_small, Z.mod_small by lia.
  replace (v - 1 + 65) with (v + 64) by lia.
  apply (column_name_loop_app col "" (String (chr (v + 64)) "")).
Qed.

Lemma get_column_name_step_witness :
  get_column_name (26 * 27 + 1) = get_column_name 27 +:+ String (chr (1 + 64)) "".
Proof. apply (get_column_name_step 27 1); lia. Defined.

Lemma key_loop_keep (key : string) (row col : Z) :
  key_loop key row col
  = (letters_value (keep (fun c => negb (isdigit c)) key) col,
     digits_value (keep isdigit key) row).
Proof.
  revert row col. induction key as [|c key IH]; intros row col; simpl.
  - reflexivity.
  - destruct (isdigit c); simpl; apply IH.
Qed.

(** X4.  [get_col_row_from_key] does not look at how the digits and the
    other characters of a key are interleaved: two keys with the same
    digits in the same order and the same other characters in the same
    order have the same column and row. *)
Theorem get_col_row_from_key_interleaving (k1 k2 : string) :
  keep isdigit k1 = keep isdigit k2 ->
  keep (fun c => negb (isdigit c)) k1 = keep (fun c => negb (isdigit c)) k2 ->
  get_col_row_from_key k1 = get_col_row_from_key k2.
Proof.
  intros Hd Hl. unfold get_col_row_from_key.
  rewrite !key_loop_keep, Hd, Hl. reflexivity.
Qed.

Lemma get_col_row_from_key_interleaving_witness :
  get_col_row_from_key "1B2C" = get_col_row_from_key "BC12".
Proof. apply (get_col_row_from_key_interleaving "1B2C" "BC12"); reflexivity. Defined.

Lemma match_cell_reference_digits (digits : string) :
  all_chars isdigit digits = true -> match_cell_reference digits = false.
Proof.
  intros H. unfold match_cell_reference.
  assert (Hspan : span is_upper digits = ("", digits)).
  { destruct digits as [|c ds]; [reflexivity|]. simpl in *.
    apply andb_prop in H as [Hc _]. now rewrite (isdigit_not_upper c Hc). }
  rewrite Hspan. destruct (span isdigit digits). reflexivity.
Qed.

(** A column that is not positive has the empty name, so the key
    written for it is the row numeral alone, which is not a cell
    reference. *)
Lemma get_key_from_col_row_no_column (col row : Z) :
  col <= 0 -> 0 <= row ->
  get_column_name col = "" /\
  get_key_from_col_row col row = str row /\
  is_cell_reference (get_key_from_col_row col row) = false.
Proof.
  intros Hcol Hrow.
  assert (Hname : get_column_name col = "")
    by (unfold get_column_name; now rewrite column_name_loop_nonpos).
  unfold get_key_from_col_row. rewrite Hname, append_empty.
  split; [reflexivity|]. split; [reflexivity|].
  unfold is_cell_reference, str.
  replace (row <? 0) with false by (symmetry; apply Z.ltb_ge; lia).
  apply match_cell_reference_digits, str_digits_isdigit; [exact Hrow | reflexivity].
Qed.

(** X5.  No string matches both patterns: a cell range is never taken
    for a single cell. *)
Theorem range_reference_not_cell_reference (s : string) :
  match_cell_range_reference s = true -> match_cell_reference s = false.
Proof.
  unfold match_cell_range_reference, match_cell_reference. intros H.
  destruct (span is_upper s) as [l1 s1].
  destruct (span isdigit s1) as [d1 s2].
  destruct (at_dollar s2) eqn:Hdollar; [|now rewrite andb_false_r].
  exfalso.
  destruct s2 as [|c [|c' s2]]; [| |discriminate].
  - simpl in H. discriminate.
  - simpl in Hdollar. apply Ascii.eqb_eq in Hdollar as ->.
    simpl in H. destruct (truthy l1), (truthy d1); discriminate.
Qed.

Lemma range_reference_not_cell_reference_witness :
  match_cell_reference "A1 : B2" = false.
Proof. apply (range_reference_not_cell_reference "A1 : B2"). reflexivity. Defined.

Lemma match_cell_reference_tail (letters digits tail : string) :
  all_chars is_upper letters = true -> all_chars isdigit digits = true ->
  truthy digits = true ->
  match tail with String c _ => isdigit c = false | EmptyString => True end ->
  match_cell_reference (letters +:+ digits +:+ tail)
  = truthy letters && at_dollar tail.
Proof.
  intros Hl Hd Hdne Htail. unfold match_cell_reference.
  rewrite (span_app is_upper letters (digits +:+ tail) Hl).
  - rewrite (span_app isdigit digits tail Hd Htail). now rewrite Hdne, andb_true_r.
  - destruct digits as [|c ds]; [discriminate|]. rewrite append_String.
    simpl in Hd. apply andb_prop in Hd as [Hc _]. apply isdigit_not_upper, Hc.
Qed.

(** X6.  [is_cell_reference] accepts exactly the well-formed keys and
    the well-formed keys followed by one newline, which the [$] of the
    pattern lets pass. *)
Theorem is_cell_reference_iff (s : string) :
  is_cell_reference s = true <->
  exists k : string,
    well_formed_key k = true /\ (s = k \/ s = k +:+ String "010"%char "").
Proof.
  unfold is_cell_reference. split.
  - unfold match_cell_reference. intros H.
    destruct (span is_upper s) as [ls s1] eqn:E1.
    destruct (span isdigit s1) as [ds s2] eqn:E2.
    apply andb_prop in H as [H Hdollar]. apply andb_prop in H as [Hlne Hdne].
    apply span_spec in E1 as [-> Hl]. apply span_spec in E2 as [-> Hd].
    exists (ls +:+ ds). split.
    + unfold well_formed_key. rewrite (span_app is_upper ls ds Hl).
      * now rewrite Hlne, Hdne, Hd.
      * destruct ds as [|c ds]; [exact I|]. simpl in Hd.
        apply andb_prop in Hd as [Hc _]. apply isdigit_not_upper, Hc.
    + destruct s2 as [|c [|c' s2]]; try discriminate.
      * left. now rewrite append_nil_r.
      * right. simpl in Hdollar. apply Ascii.eqb_eq in Hdollar as ->.
        now rewrite append_assoc.
  - intros (k & Hk & Hs). unfold well_formed_key in Hk.
    destruct (span is_upper k) as [ls ds] eqn:E. apply span_spec in E as [-> Hl].
    apply andb_prop in Hk as [Hk Hd]. apply andb_prop in Hk as [Hlne Hdne].
    destruct Hs as [-> | ->].
    + rewrite <- (append_nil_r ds).
      rewrite match_cell_reference_tail by (assumption || exact I).
      now rewrite Hlne.
    + rewrite append_assoc.
      rewrite match_cell_reference_tail by (assumption || reflexivity).
      now rewrite Hlne.
Qed.

Lemma is_cell_reference_iff_witness :
  is_cell_reference (String "A" (String "1" (String "010" ""))) = true.
Proof.
  apply (is_cell_reference_iff (String "A" (String "1" (String "010" "")))).
  exists "A1". split; [reflexivity | right; reflexivity].
Defined.

(** [shorten] of what [shorten] returns. *)
Lemma take_take_app (n : nat) (s t : string) :
  (n <= String.length s)%nat -> take n (take n s +:+ t) = take n s.
Proof.
  revert s. induction n as [|n IH]; intros s Hlen.
  - destruct (take 0 s +:+ t); reflexivity.
  - destruct s as [|c s]; [simpl in Hlen; lia|].
    simpl take at 2 3. rewrite append_String. simpl. f_equal.
    apply IH. simpl in Hlen. lia.
Qed.

(** X7.  For a length of at least 3, [shorten] is idempotent: a
    shortened string is not shortened again. *)
Theorem shorten_idempotent (s : string) (n : Z) :
  3 <= n -> shorten (shorten s n) n = shorten s n.
Proof.
  intros Hn.
  assert (Hbound : forall t, slice_bound t (n - 3) = Z.to_nat (Z.min (len t) (n - 3)))
    by (intros t; apply slice_bound_nonneg; lia).
  destruct (shorten_cases s n) as [Hkeep Hcut].
  destruct (Z_le_gt_dec (len s) (n - 3)) as [Hsmall | Hlarge].
  - assert (Hs : slice_to s (n - 3) = s).
    { unfold slice_to. apply take_all_iff. rewrite Hbound. unfold len in *. lia. }
    now rewrite !(Hkeep Hs).
  - assert (Hne : slice_to s (n - 3) <> s).
    { unfold slice_to. rewrite Hbound. intros Heq. apply take_all_iff in Heq.
      unfold len in *. lia. }
    assert (Htake : slice_to s (n - 3) = take (Z.to_nat (n - 3)) s).
    { unfold slice_to. rewrite Hbound. f_equal. lia. }
    rewrite (Hcut Hne), Htake.
    set (r := take (Z.to_nat (n - 3)) s +:+ "...").
    assert (Hlen : len r = n).
    { unfold r. rewrite len_append. unfold len at 1. rewrite length_take.
      unfold len in *. simpl. lia. }
    destruct (shorten_cases r n) as [_ Hcut'].
    assert (Htake' : slice_to r (n - 3) = take (Z.to_nat (n - 3)) s).
    { unfold slice_to. rewrite Hbound, Hlen.
      replace (Z.to_nat (Z.min n (n - 3))) with (Z.to_nat (n - 3)) by lia.
      unfold r. apply take_take_app. unfold len in *. lia. }
    rewrite Hcut'; [now rewrite Htake'|].
    rewrite Htake'. unfold r. intros Heq.
    apply (f_equal len) in Heq. rewrite len_append in Heq.
    unfold len in Heq. simpl in Heq. lia.
Qed.

Lemma shorten_idempotent_witness :
  shorten (shorten "abcdefghij" 5) 5 = shorten "abcdefghij" 5.
Proof. apply (shorten_idempotent "abcdefghij" 5). lia. Defined.

(** X8.  For a length below 3 the slice bound is negative: the result
    of a string that is not empty is the string without its last
    [3 - n] characters, followed by the ellipsis, and so it has at
    least 3 characters, more than the length allows. *)
Theorem shorten_below_three (s : string) (n : Z) :
  n < 3 -> s <> "" ->
  shorten s n = take (Z.to_nat (len s + n - 3)) s +:+ "..." /\
  len (shorten s n) = Z.max 0 (len s + n - 3) + 3 /\
  n < len (shorten s n).
Proof.
  intros Hn Hs.
  assert (Hpos : 0 < len s) by (destruct s; [contradiction | unfold len; simpl; lia]).
  assert (Hbound : slice_bound s (n - 3) = Z.to_nat (len s + n - 3)).
  { unfold slice_bound. replace (n - 3 <? 0) with true by (symmetry; apply Z.ltb_lt; lia).
    lia. }
  destruct (shorten_cases s n) as [_ Hcut].
  assert (Hne : slice_to s (n - 3) <> s).
  { unfold slice_to. rewrite Hbound. intros Heq. apply take_all_iff in Heq.
    unfold len in *. lia. }
  assert (Heq : shorten s n = take (Z.to_nat (len s + n - 3)) s +:+ "...").
  { rewrite (Hcut Hne). unfold slice_to. now rewrite Hbound. }
  assert (Hlen : len (shorten s n) = Z.max 0 (len s + n - 3) + 3).
  { rewrite Heq, len_append. unfold len at 1. rewrite length_take.
    unfold len in *. simpl. lia. }
  split; [exact Heq|]. split; [exact Hlen|]. lia.
Qed.

Lemma shorten_below_three_witness :
  shorten "abcdefghij" 2 = take (Z.to_nat (len "abcdefghij" + 2 - 3)) "abcdefghij" +:+ "...".
Proof.
  destruct (shorten_below_three "abcdefghij" 2) as (H & _); [lia | discriminate | exact H].
Defined.

End KeyFacts.

(** ** More on the script analyzer *)

Module AnalyzerMoreFacts.
Import Py PyFacts Api ApiFacts AnalyzerFacts Values.

Lemma list_index_none_iff (n : nat) (i : Z) :
  list_index n i = None <-> i < - Z.of_nat n \/ Z.of_nat n <= i.
Proof.
  unfold list_index.
  destruct (i <? 0) eqn:E0;
    [destruct (0 <=? i + Z.of_nat n) eqn:E1; destruct (i + Z.of_nat n <? Z.of_nat n) eqn:E2
    |destruct (0 <=? i) eqn:E1; destruct (i <? Z.of_nat n) eqn:E2];
    simpl; rewrite ?Z.ltb_lt, ?Z.ltb_ge, ?Z.leb_le, ?Z.leb_gt in *;
    split; intros Hx; try discriminate; try reflexivity; lia.
Qed.

(** A piece after the last separator. *)
Lemma split_snoc (sep : ascii) (a b : string) :
  all_chars (fun c => negb (Ascii.eqb c sep)) b = true ->
  split sep (a +:+ String sep b) = split sep a ++ [b].
Proof.
  intros Hb. induction a as [|c a IH]; simpl_append.
  - simpl. rewrite Ascii.eqb_refl. now rewrite (split_none sep b Hb).
  - simpl. rewrite IH. destruct (Ascii.eqb c sep); [reflexivity|].
    pose proof (split_nonempty sep a) as Hne.
    destruct (split sep a) as [|p ps]; [contradiction | reflexivity].
Qed.

Lemma alter_last {A : Type} (f : A -> A) (l : list A) (x : A) :
  alter f (length l) (l ++ [x]) = l ++ [f x].
Proof. induction l as [|y l IH]; simpl; [reflexivity | f_equal; exact IH]. Qed.

Section Intercept.
Variable ast_parse : string -> parse_result.

(** X9.  On a script that is not empty, a SyntaxError of the parser is
    not caught (unlike in [find_inputs]); and when the parser returns a
    tree, [intercept_last_expression] raises nothing but IndexError,
    in two situations only: the tree has no statement, so that
    [tree.body[-1]] raises it; or the last statement is an [Expr] or an
    [Assign] whose line number is no index of [script.split("\n")], so
    that the list assignment raises it. *)
Theorem intercept_last_expression_raises (script : string) :
  script <> "" ->
  (ast_parse script = ParseError ->
   intercept_last_expression ast_parse script = Raises SyntaxError) /\
  (forall (body : list ast) (e : exn),
     ast_parse script = Module body ->
     (intercept_last_expression ast_parse script = Raises e <->
      e = IndexError /\
      (body = [] \/
       exists (cls : node_class) (lineno : Z) (fields : list ast),
         last body = Some (Node cls lineno fields) /\
         (cls = Expr \/ cls = Assign) /\
         (lineno - 1 < - Z.of_nat (length (split "010"%char script)) \/
          Z.of_nat (length (split "010"%char script)) <= lineno - 1)))).
Proof.
  intros Hne.
  assert (Htruthy : negb (truthy script) = false)
    by (destruct script; [contradiction | reflexivity]).
  unfold intercept_last_expression. rewrite Htruthy. split.
  { intros ->. reflexivity. }
  intros body e ->. set (lines := split "010"%char script).
  assert (Hprefix : forall lineno : Z,
            (lines' ← prefix_line lines (lineno - 1); Returns (join "010"%char lines'))
            = Raises e <->
            e = IndexError /\
            (lineno - 1 < - Z.of_nat (length lines) \/ Z.of_nat (length lines) <= lineno - 1)).
  { intros lineno. unfold prefix_line.
    destruct (list_index (length lines) (lineno - 1)) eqn:Hidx.
    - split; [discriminate|]. intros [_ Hout].
      apply list_index_none_iff in Hout. congruence.
    - apply list_index_none_iff in Hidx. split.
      + intros [= <-]. auto.
      + intros [-> _]. reflexivity. }
  destruct (last body) as [stmt|] eqn:Hlast.
  - assert (Hbody : body <> []) by (intros ->; discriminate).
    destruct stmt as [id ctx | value | cls lineno fields].
    + split; [discriminate|].
      intros [_ [H | (cls & lineno & fields & H & _)]]; [contradiction | discriminate].
    + split; [discriminate|].
      intros [_ [H | (cls & lineno & fields & H & _)]]; [contradiction | discriminate].
    + destruct cls as [| | name].
      * rewrite Hprefix. split.
        -- intros [-> Hout]. split; [reflexivity|]. right.
           exists Expr, lineno, fields. auto.
        -- intros [-> [H | (cls & l & f & Heq & _ & Hout)]]; [contradiction|].
           injection Heq as <- <- <-. auto.
      * rewrite Hprefix. split.
        -- intros [-> Hout]. split; [reflexivity|]. right.
           exists Assign, lineno, fields. auto.
        -- intros [-> [H | (cls & l & f & Heq & _ & Hout)]]; [contradiction|].
           injection Heq as <- <- <-. auto.
      * split; [discriminate|].
        intros [_ [H | (cls & l & f & Heq & Hcls & _)]]; [contradiction|].
        injection Heq as <- <- <-. destruct Hcls; discriminate.
  - assert (Hbody : body = []).
    { destruct body as [|x body] using rev_ind; [reflexivity|].
      rewrite last_snoc in Hlast. discriminate. }
    split.
    + intros [= <-]. auto.
    + intros [-> _]. reflexivity.
Qed.

(** X10.  When the last statement is an expression or an assignment
    that starts on the last line of the text, the result is the text
    with [_ = ] put in front of its last line; for a script of one line
    that is [_ = ] followed by the script. *)
Theorem intercept_last_expression_last_line (script : string) :
  (forall (body : list ast) (cls : node_class) (fields : list ast),
     script <> "" ->
     all_chars (fun c => negb (Ascii.eqb c "010"%char)) script = true ->
     ast_parse script = Module body ->
     last body = Some (Node cls 1 fields) ->
     cls = Expr \/ cls = Assign ->
     intercept_last_expression ast_parse script = Returns ("_ = " +:+ script)) /\
  (forall (before line : string) (body : list ast) (cls : node_class) (fields : list ast),
     script = before +:+ String "010"%char line ->
     all_chars (fun c => negb (Ascii.eqb c "010"%char)) line = true ->
     ast_parse script = Module body ->
     last body
     = Some (Node cls (Z.of_nat (length (split "010"%char before)) + 1) fields) ->
     cls = Expr \/ cls = Assign ->
     intercept_last_expression ast_parse script
     = Returns (before +:+ String "010"%char ("_ = " +:+ line))).
Proof.
  split.
  - intros body cls fields Hne Hline Hparse Hlast Hcls.
    unfold intercept_last_expression.
    destruct script as [|c script]; [contradiction|]. simpl negb. cbv iota.
    rewrite Hparse, Hlast, (split_none _ _ Hline).
    destruct Hcls as [-> | ->]; reflexivity.
  - intros before line body cls fields -> Hline Hparse Hlast Hcls.
    unfold intercept_last_expression.
    assert (Htruthy : negb (truthy (before +:+ String "010"%char line)) = false)
      by (destruct before; reflexivity).
    rewrite Htruthy, Hparse, Hlast, (split_snoc _ _ _ Hline).
    set (lines := split "010"%char before).
    assert (Hprefix :
      prefix_line (lines ++ [line]) (Z.of_nat (length lines) + 1 - 1)
      = Returns (lines ++ ["_ = " +:+ line])).
    { unfold prefix_line. rewrite list_index_in_range.
      - replace (Z.to_nat (Z.of_nat (length lines) + 1 - 1)) with (length lines) by lia.
        now rewrite alter_last.
      - rewrite length_app. simpl. lia. }
    assert (Hjoin : join "010"%char (lines ++ ["_ = " +:+ line])
                    = before +:+ String "010"%char ("_ = " +:+ line)).
    { rewrite join_snoc by apply split_nonempty. unfold lines. now rewrite join_split. }
    destruct Hcls as [-> | ->]; rewrite Hprefix; simpl; now rewrite Hjoin.
Qed.

End Intercept.

(** A script that is one comment has no statement. *)
Lemma intercept_last_expression_raises_witness :
  intercept_last_expression (fun _ => Module []) "# note" = Raises IndexError.
Proof.
  assert (Hne : "# note" <> "") by discriminate.
  destruct (intercept_last_expression_raises (fun _ => Module []) "# note" Hne) as [_ H].
  apply (H [] IndexError eq_refl). split; [reflexivity|]. left. reflexivity.
Defined.

Lemma intercept_last_expression_last_line_witness :
  intercept_last_expression
    (fun _ => Module [Node Assign 1 []; Node Expr 2 []]) "y = 1
y + 1"
  = Returns ("y = 1" +:+ String "010"%char ("_ = " +:+ "y + 1")).
Proof.
  destruct (intercept_last_expression_last_line
              (fun _ => Module [Node Assign 1 []; Node Expr 2 []]) "y = 1
y + 1") as [_ H].
  apply (H "y = 1" "y + 1" [Node Assign 1 []; Node Expr 2 []] Expr []);
    try reflexivity.
  left. reflexivity.
Defined.

(** *** Range literals *)

Lemma fold_left_same {A B : Type} (f : A -> B -> A) (l : list B) (a : A) :
  (forall x b, f x b = x) -> fold_left f l a = a.
Proof.
  intros Hf. induction l as [|b l IH]; simpl; [reflexivity|]. now rewrite Hf.
Qed.

Lemma range_empty (lo hi : Z) : hi <= lo -> range lo hi = [].
Proof.
  intros H. unfold range, seqZ.
  replace (Z.to_nat (hi - lo)) with 0%nat by lia. reflexivity.
Qed.

(** X11.  A range literal whose second key lies left of or above its
    first key adds no input: the loops of [visit_Constant] run over
    empty ranges. *)
Theorem visit_Constant_reversed_range (inputs : nat) (s start end_ : string) (h : heap) :
  split ":"%char s = [start; end_] ->
  (get_col_row_from_key (strip end_)).1 < (get_col_row_from_key (strip start)).1 \/
  (get_col_row_from_key (strip end_)).2 < (get_col_row_from_key (strip start)).2 ->
  visit_Constant inputs (CStr s) h = h.
Proof.
  intros Hsplit Hrev. unfold visit_Constant.
  destruct (is_cell_range_reference (CStr s)); [|reflexivity].
  rewrite Hsplit.
  destruct (get_col_row_from_key (strip start)) as [start_col start_row].
  destruct (get_col_row_from_key (strip end_)) as [end_col end_row].
  simpl in Hrev. unfold add_rectangle. destruct Hrev as [Hcol | Hrow].
  - rewrite (range_empty start_col (end_col + 1)) by lia. reflexivity.
  - apply fold_left_same. intros h0 col.
    rewrite (range_empty start_row (end_row + 1)) by lia. reflexivity.
Qed.

Lemma visit_Constant_reversed_range_witness :
  visit_Constant 0 (CStr "B2:A1") [∅] = [∅].
Proof.
  apply (visit_Constant_reversed_range 0 "B2:A1" "B2" "A1" [∅]).
  - reflexivity.
  - left. vm_compute. reflexivity.
Defined.

Section FindInputs.
Variable ast_parse : string -> parse_result.

(** X12.  The inputs of a script depend on which top-level statements
    it has, not on their order or on how often each occurs: two scripts
    with the same statements give the same keys, each once, so that one
    list is a rearrangement of the other.  Nothing is said of the order
    in which the keys are listed. *)
Theorem find_inputs_same_statements (s1 s2 : string) (body1 body2 : list ast) (h1 h2 : heap) :
  ast_parse s1 = Module body1 ->
  ast_parse s2 = Module body2 ->
  (forall stmt : ast, stmt ∈ body1 <-> stmt ∈ body2) ->
  (find_inputs ast_parse s1 h1).1 ≡ₚ (find_inputs ast_parse s2 h2).1.
Proof.
  intros Hp1 Hp2 Hsame.
  pose proof (find_inputs_run ast_parse s1 h1) as H1.
  pose proof (find_inputs_run ast_parse s2 h2) as H2.
  rewrite Hp1 in H1. rewrite Hp2 in H2.
  destruct H1 as (i1 & -> & Hi1), H2 as (i2 & -> & Hi2). simpl.
  apply NoDup_Permutation; [apply NoDup_elements | apply NoDup_elements |].
  intros k. rewrite !elem_of_elements, Hi1, Hi2. unfold is_input.
  split; intros (stmt & Hin & Hk); exists stmt; split; auto; now apply Hsame.
Qed.

End FindInputs.

Lemma find_inputs_same_statements_witness :
  (find_inputs example_parse_order "A1; B2" []).1
  ≡ₚ (find_inputs example_parse_order "B2; A1; B2" []).1.
Proof.
  apply (find_inputs_same_statements example_parse_order "A1; B2" "B2; A1; B2"
           [Node Expr 1 [Name "A1" Load]; Node Expr 1 [Name "B2" Load]]
           [Node Expr 1 [Name "B2" Load]; Node Expr 1 [Name "A1" Load];
            Node Expr 1 [Name "B2" Load]]
           [] []); try reflexivity.
  intros stmt. rewrite !elem_of_cons. tauto.
Defined.

End AnalyzerMoreFacts.

(** ** Numerals: [str] and [int] *)

Module IntFacts.
Import Py PyFacts Api ApiFacts AnalyzerFacts KeyFacts.

Lemma int_digits_digits (digits : string) (acc : Z) (after_digit : bool) :
  all_chars isdigit digits = true ->
  truthy digits = true \/ after_digit = true ->
  LegacyApi.int_digits digits acc after_digit = Some (digits_value digits acc).
Proof.
  revert acc after_digit. induction digits as [|c ds IH]; intros acc after Hall Hne; simpl.
  - destruct Hne as [Hne | ->]; [discriminate | reflexivity].
  - simpl in Hall. apply andb_prop in Hall as [Hc Hds]. rewrite Hc.
    apply IH; auto.
Qed.

Lemma strip_no_space (s : string) :
  all_chars (fun c => negb (is_space c)) s = true -> strip s = s.
Proof.
  intros H. unfold strip.
  assert (Hl : lstrip s = s).
  { destruct s as [|c s]; [reflexivity|]. simpl in *.
    apply andb_prop in H as [Hc _]. apply negb_true_iff in Hc. now rewrite Hc. }
  rewrite Hl. apply rstrip_no_space, H.
Qed.

(** The white space of [int] is white space for [strip] too. *)
Lemma int_space_is_space (c : ascii) :
  LegacyApi.is_int_space c = true -> is_space c = true.
Proof.
  unfold LegacyApi.is_int_space, is_space. intros H.
  apply orb_prop in H as [H | H].
  - now rewrite H.
  - apply Z.eqb_eq in H. now rewrite H.
Qed.

Lemma skip_left_none (p : ascii -> bool) (s : string) :
  all_chars (fun c => negb (p c)) s = true -> LegacyApi.skip_left p s = s.
Proof.
  destruct s as [|c s]; [reflexivity|]. simpl. intros H.
  apply andb_prop in H as [Hc _]. apply negb_true_iff in Hc. now rewrite Hc.
Qed.

Lemma skip_right_none (p : ascii -> bool) (s : string) :
  all_chars (fun c => negb (p c)) s = true -> LegacyApi.skip_right p s = s.
Proof.
  induction s as [|c s IH]; simpl; intros H; [reflexivity|].
  apply andb_prop in H as [Hc Hs]. apply negb_true_iff in Hc.
  rewrite (IH Hs), Hc. destruct s; reflexivity.
Qed.

Lemma int_strip_no_space (s : string) :
  all_chars (fun c => negb (is_space c)) s = true ->
  LegacyApi.skip_right LegacyApi.is_int_space
    (LegacyApi.skip_left LegacyApi.is_int_space s) = s.
Proof.
  intros H.
  assert (H' : all_chars (fun c => negb (LegacyApi.is_int_space c)) s = true).
  { apply (all_chars_impl (fun c => negb (is_space c))); [|exact H].
    intros c Hc. apply negb_true_iff. apply negb_true_iff in Hc.
    destruct (LegacyApi.is_int_space c) eqn:E; [|reflexivity].
    apply int_space_is_space in E. congruence. }
  rewrite skip_left_none by exact H'. apply skip_right_none, H'.
Qed.

Lemma count_digits_all (s : string) :
  all_chars isdigit s = true -> LegacyApi.count_digits s = len s.
Proof.
  unfold len. induction s as [|c s IH]; [reflexivity|].
  simpl all_chars. intros H. apply andb_prop in H as [Hc Hs].
  simpl LegacyApi.count_digits. rewrite Hc, (IH Hs). simpl String.length. lia.
Qed.

(** A number below [10 ^ k] has at most [k] digits. *)
Lemma len_str_digits (n : Z) (acc : string) :
  forall k, 1 <= k -> 0 <= n < 10 ^ k -> len (str_digits n acc) <= k + len acc.
Proof.
  funelim (str_digits n acc); intros k Hk Hn.
  - unfold len. simpl String.length. lia.
  - assert (Hk2 : 2 <= k).
    { destruct (Z.eq_dec k 1) as [-> | Hne]; [|lia]. change (10 ^ 1) with 10 in Hn. lia. }
    assert (Hpow : 10 ^ k = 10 * 10 ^ (k - 1)).
    { rewrite <- Z.pow_succ_r by lia. f_equal. lia. }
    assert (Hdiv : 0 <= n / 10 < 10 ^ (k - 1)).
    { split; [apply Z.div_pos; lia|]. apply Z.div_lt_upper_bound; lia. }
    specialize (H (k - 1) ltac:(lia) Hdiv).
    unfold len in *. simpl String.length in H. lia.
Qed.

(** [int] reads a run of at most 4300 digits as the number that
    [get_col_row_from_key] reads from it. *)
Lemma int_digits_string (digits : string) :
  all_chars isdigit digits = true -> truthy digits = true ->
  len digits <= LegacyApi.int_max_str_digits ->
  LegacyApi.int digits = Returns (digits_value digits 0).
Proof.
  intros Hall Hne Hlen. unfold LegacyApi.int.
  rewrite int_strip_no_space
    by (apply (all_chars_impl isdigit); [apply isdigit_no_space | exact Hall]).
  rewrite (count_digits_all _ Hall).
  destruct digits as [|c ds]; [discriminate|].
  pose proof (int_digits_digits (String c ds) 0 false Hall (or_introl Hne)) as Hint.
  simpl in Hall. apply andb_prop in Hall as [Hc _].
  assert (Hminus : c <> "-"%char) by (intros ->; discriminate).
  assert (Hplus : c <> "+"%char) by (intros ->; discriminate).
  replace (match String c ds with
           | String "-"%char r => option_map Z.opp (LegacyApi.int_digits r 0 false)
           | String "+"%char r => LegacyApi.int_digits r 0 false
           | r => LegacyApi.int_digits r 0 false
           end) with (LegacyApi.int_digits (String c ds) 0 false).
  - rewrite Hint. now replace (len (String c ds) <=? _) with true
      by (symmetry; apply Z.leb_le, Hlen).
  - destruct c as [[] [] [] [] [] [] [] []]; try reflexivity; contradiction.
Qed.

(** A run of more than 4300 digits is refused. *)
Lemma int_digits_string_too_long (digits : string) :
  all_chars isdigit digits = true ->
  LegacyApi.int_max_str_digits < len digits ->
  LegacyApi.int digits = Raises ValueError.
Proof.
  intros Hall Hlen. unfold LegacyApi.int. rewrite (count_digits_all _ Hall).
  replace (len digits <=? _) with false by (symmetry; apply Z.leb_gt, Hlen).
  now destruct (match _ with EmptyString => _ | String _ _ => _ end).
Qed.

Lemma str_digits_no_space (n : Z) :
  0 <= n -> all_chars (fun c => negb (is_space c)) (str_digits n "") = true.
Proof.
  intros Hn. destruct (str_digits_isdigit n "" Hn eq_refl) as [Hall _].
  apply (all_chars_impl isdigit); [apply isdigit_no_space | exact Hall].
Qed.

(** [int] reads back what [str] prints, for a number of at most 4300
    digits. *)
Lemma int_str (n : Z) :
  Z.abs n < 10 ^ LegacyApi.int_max_str_digits -> LegacyApi.int (str n) = Returns n.
Proof.
  intros Hbound. unfold str. destruct (Z.ltb_spec n 0) as [Hneg | Hpos].
  - unfold LegacyApi.int.
    rewrite int_strip_no_space
      by (simpl; apply str_digits_no_space; lia).
    destruct (str_digits_isdigit (- n) "" ltac:(lia) eq_refl) as [Hall Hne].
    rewrite (int_digits_digits _ 0 false Hall (or_introl Hne)).
    rewrite (digits_value_str_digits (- n) "") by lia.
    simpl LegacyApi.count_digits. rewrite (count_digits_all _ Hall).
    pose proof (len_str_digits (- n) "" LegacyApi.int_max_str_digits
                  ltac:(unfold LegacyApi.int_max_str_digits; lia) ltac:(lia)) as Hlen.
    change (len "") with 0 in Hlen.
    replace (0 + len _ <=? _) with true by (symmetry; apply Z.leb_le; lia).
    simpl. f_equal. lia.
  - destruct (str_digits_isdigit n "" Hpos eq_refl) as [Hall Hne].
    pose proof (len_str_digits n "" LegacyApi.int_max_str_digits
                  ltac:(unfold LegacyApi.int_max_str_digits; lia) ltac:(lia)) as Hlen.
    change (len "") with 0 in Hlen.
    rewrite (int_digits_string _ Hall Hne) by lia.
    now rewrite (digits_value_str_digits n "").
Qed.

(** Two numbers with the same numeral are equal. *)
Lemma str_injective (a b : Z) : str a = str b -> a = b.
Proof.
  unfold str.
  destruct (Z.ltb_spec a 0) as [Ha | Ha], (Z.ltb_spec b 0) as [Hb | Hb]; intros H.
  - injection H as H. apply (f_equal (fun s => digits_value s 0)) in H.
    rewrite !digits_value_str_digits in H by lia. simpl in H. lia.
  - destruct (str_digits_isdigit b "" Hb eq_refl) as [Hall _].
    rewrite <- H in Hall. discriminate.
  - destruct (str_digits_isdigit a "" Ha eq_refl) as [Hall _].
    rewrite H in Hall. discriminate.
  - apply (f_equal (fun s => digits_value s 0)) in H.
    rewrite !digits_value_str_digits in H by lia. simpl in H. exact H.
Qed.

End IntFacts.

(** ** [convert] *)

Module ValuesFacts.
Import Py PyFacts Api ApiFacts AnalyzerFacts IntFacts Values.

Lemma contains_char_all (c : ascii) (p : ascii -> bool) (s : string) :
  p c = false -> all_chars p s = true -> contains_char c s = false.
Proof.
  intros Hc. induction s as [|x s IH]; simpl; [reflexivity|].
  intros H. apply andb_prop in H as [Hx Hs]. rewrite (IH Hs), orb_false_r.
  apply Ascii.eqb_neq. intros ->. congruence.
Qed.

Lemma str_no_dot (n : Z) : contains_char "."%char (str n) = false.
Proof.
  unfold str. destruct (Z.ltb_spec n 0) as [Hneg | Hpos].
  - simpl. apply (contains_char_all _ isdigit); [reflexivity|].
    apply str_digits_isdigit; [lia | reflexivity].
  - apply (contains_char_all _ isdigit); [reflexivity|].
    apply str_digits_isdigit; [lia | reflexivity].
Qed.

(** X13.  [convert] of the decimal numeral of an integer of at most
    4300 digits, negative or not, is that integer, whatever [float]
    does: the numeral has no dot, so the value is read with [int], and
    [int] accepts a numeral of that length. *)
Theorem convert_str (float_of_str : string -> outcome float) (n : Z) :
  Z.abs n < 10 ^ LegacyApi.int_max_str_digits ->
  convert float_of_str (str n) = Returns (Int n).
Proof.
  intros Hbound. unfold convert. rewrite str_no_dot, int_str by exact Hbound.
  reflexivity.
Qed.

Lemma convert_str_witness :
  Z.abs (-2024) < 10 ^ LegacyApi.int_max_str_digits /\
  convert (fun _ => Raises ValueError) "-2024" = Returns (Int (-2024)).
Proof.
  assert (H : Z.abs (-2024) < 10 ^ LegacyApi.int_max_str_digits)
    by (apply Z.ltb_lt; vm_compute; reflexivity).
  split; [exact H|].
  exact (convert_str (fun _ => Raises ValueError) (-2024) H).
Defined.

(** X14.  [convert] returns a well-formed cell key as it is: a key has
    no dot and starts with a letter, which [int] rejects, so a cell
    reference is never taken for a number. *)
Theorem convert_key (float_of_str : string -> outcome float) (k : string) :
  well_formed_key k = true -> convert float_of_str k = Returns (Str k).
Proof.
  unfold well_formed_key. intros Hk.
  destruct (span is_upper k) as [ls ds] eqn:E. apply span_spec in E as [-> Hl].
  apply andb_prop in Hk as [Hk Hd]. apply andb_prop in Hk as [Hlne Hdne].
  set (q := fun c => is_upper c || isdigit c).
  assert (Hq : all_chars q (ls +:+ ds) = true).
  { rewrite all_chars_app.
    rewrite (all_chars_impl is_upper q ls), (all_chars_impl isdigit q ds); auto;
      intros c Hc; unfold q; rewrite Hc; [apply orb_true_r | reflexivity]. }
  assert (Hdot : contains_char "."%char (ls +:+ ds) = false)
    by (apply (contains_char_all _ q); [reflexivity | exact Hq]).
  assert (Hstrip : LegacyApi.skip_right LegacyApi.is_int_space
                     (LegacyApi.skip_left LegacyApi.is_int_space (ls +:+ ds)) = ls +:+ ds).
  { apply int_strip_no_space. apply (all_chars_impl q); [|exact Hq].
    intros c Hc. unfold q in Hc. apply orb_prop in Hc as [Hc | Hc];
      [now apply is_upper_no_space | now apply isdigit_no_space]. }
  assert (Hint : LegacyApi.int (ls +:+ ds) = Raises ValueError).
  { unfold LegacyApi.int. rewrite Hstrip.
    destruct ls as [|c ls]; [discriminate|]. rewrite append_String.
    simpl in Hl. apply andb_prop in Hl as [Hc _].
    assert (Hno : LegacyApi.int_digits (String c (ls +:+ ds)) 0 false = None).
    { simpl. rewrite (is_upper_not_digit c Hc). now rewrite andb_false_r. }
    assert (Hminus : c <> "-"%char) by (intros ->; discriminate).
    assert (Hplus : c <> "+"%char) by (intros ->; discriminate).
    replace (match String c (ls +:+ ds) with
             | String "-"%char r => option_map Z.opp (LegacyApi.int_digits r 0 false)
             | String "+"%char r => LegacyApi.int_digits r 0 false
             | r => LegacyApi.int_digits r 0 false
             end) with (LegacyApi.int_digits (String c (ls +:+ ds)) 0 false).
    - now rewrite Hno.
    - destruct c as [[] [] [] [] [] [] [] []]; try reflexivity; contradiction. }
  unfold convert. rewrite Hdot, Hint. simpl.
  now rewrite (truthy_app_l ls ds Hlne).
Qed.

Lemma convert_key_witness :
  convert (fun _ => Raises ValueError) "BC45" = Returns (Str "BC45").
Proof. apply (convert_key (fun _ => Raises ValueError) "BC45"). reflexivity. Defined.

End ValuesFacts.

(** ** More on the network trampoline *)

Module TrampolineMoreFacts.
Import Py Api Loader.

Section Get.
Variable time_time : nat -> float.
Variable xhr_get : nat -> string -> Z * string.

(** The two ways [fetch] ends. *)
Lemma fetch_cases (url : string) (st : net) :
  (exists message : string,
     fetch time_time xhr_get url st
     = (Raises (IOError message),
        Net (network_cache st) (clock_reads st) (url :: requests st))) \/
  (exists responseText : string,
     fetch time_time xhr_get url st
     = (Returns responseText,
        Net (<[url := (time_time (clock_reads st), responseText)]> (network_cache st))
            (S (clock_reads st)) (url :: requests st))).
Proof.
  unfold fetch. destruct (xhr_get (length (requests st)) url) as [status body].
  destruct (negb (status =? 200)); [left | right]; eauto.
Qed.

(** The three ways [get] ends: a hit, or a fetch from the state that
    the cache check leaves. *)
Lemma get_cases (url : string) (st : net) :
  (exists (when : float) (value : string),
     network_cache st !! url = Some (when, value) /\
     get time_time xhr_get url st
     = (Returns value, Net (network_cache st) (S (clock_reads st)) (requests st))) \/
  (exists reads : nat,
     (reads = clock_reads st \/ reads = S (clock_reads st)) /\
     get time_time xhr_get url st
     = fetch time_time xhr_get url (Net (network_cache st) reads (requests st))).
Proof.
  unfold get. destruct (network_cache st !! url) as [[when value]|] eqn:Hentry.
  - destruct (PrimFloat.ltb _ _).
    + left. eauto.
    + right. exists (S (clock_reads st)). auto.
  - right. exists (clock_reads st). split; [auto|]. now destruct st.
Qed.

(** X15.  Whenever [get] returns a text, the cache afterwards holds
    that text under the URL; and a second [get] of the URL for which
    the clock reads less than 60 seconds after the time of the entry
    returns the same text, sends no request and leaves the cache as it
    is. *)
Theorem get_then_get (url : string) (st : net) (text : string) :
  (get time_time xhr_get url st).1 = Returns text ->
  let st1 := (get time_time xhr_get url st).2 in
  exists when : float,
    network_cache st1 !! url = Some (when, text) /\
    (PrimFloat.ltb (time_time (clock_reads st1) - when)%float 60%float = true ->
     get time_time xhr_get url st1
     = (Returns text, Net (network_cache st1) (S (clock_reads st1)) (requests st1))).
Proof.
  intros Hres st1.
  assert (Hentry : exists when, network_cache st1 !! url = Some (when, text)).
  { unfold st1. destruct (get_cases url st) as [(when & value & Hin & Hget) | (reads & _ & Hget)].
    - rewrite Hget in Hres |- *. simpl in *. injection Hres as ->. eauto.
    - rewrite Hget in Hres |- *.
      destruct (fetch_cases url (Net (network_cache st) reads (requests st)))
        as [(m & Hf) | (body & Hf)]; rewrite Hf in Hres |- *; simpl in *; [discriminate|].
      injection Hres as ->. eexists. apply lookup_insert_eq. }
  destruct Hentry as (when & Hentry). exists when. split; [exact Hentry|].
  intros Hyoung. unfold get. rewrite Hentry, Hyoung. reflexivity.
Qed.


(** X16.  [get] touches the cache at its own URL only and never drops
    an entry; it sends at most one request, to its own URL; and it
    reads the clock at most twice. *)
Theorem get_frame (url : string) (st : net) :
  let st' := (get time_time xhr_get url st).2 in
  (forall other : string,
     other <> url -> network_cache st' !! other = network_cache st !! other) /\
  (forall any : string,
     is_Some (network_cache st !! any) -> is_Some (network_cache st' !! any)) /\
  (requests st' = requests st \/ requests st' = url :: requests st) /\
  (clock_reads st <= clock_reads st' <= clock_reads st + 2)%nat.
Proof.
  intros st'. unfold st'.
  destruct (get_cases url st) as [(when & value & Hin & Hget) | (reads & Hreads & Hget)].
  - rewrite Hget. simpl. repeat split; auto; lia.
  - rewrite Hget.
    destruct (fetch_cases url (Net (network_cache st) reads (requests st)))
      as [(m & Hf) | (body & Hf)]; rewrite Hf; simpl.
    + repeat split; auto; lia.
    + split; [|split; [|split]].
      * intros other Hne. now rewrite lookup_insert_ne.
      * intros any Hany. destruct (decide (any = url)) as [-> | Hne].
        -- rewrite lookup_insert_eq. eauto.
        -- now rewrite lookup_insert_ne.
      * now right.
      * lia.
Qed.

(** [window.encodeURIComponent] and [base64.b64decode]. *)
Variable encodeURIComponent : string -> string.
Variable b64decode : string -> outcome string.


End Get.

Lemma get_then_get_witness :
  exists when : float,
    network_cache
      (get (fun n => if Nat.eqb n 0 then 100%float else 130%float)
           (fun _ _ => (200, "aGk=")) "/x" (Net ∅ 0 [])).2 !! "/x"
    = Some (when, "aGk=").
Proof.
  pose (clock := fun n : nat => if Nat.eqb n 0 then 100%float else 130%float).
  pose (server := fun (_ : nat) (_ : string) => (200, "aGk=")).
  assert (Hres : (get clock server "/x" (Net ∅ 0 [])).1 = Returns "aGk=")
    by (vm_compute; reflexivity).
  destruct (get_then_get clock server "/x" (Net ∅ 0 []) "aGk=" Hres) as (when & H & _).
  exists when. exact H.
Defined.

Lemma get_frame_witness :
  network_cache
    (get (fun _ => 100%float) (fun _ _ => (200, "aGk=")) "/x"
         (Net {[ "/y" := (0%float, "eQ==") ]} 0 [])).2 !! "/y"
  = Some (0%float, "eQ==").
Proof.
  destruct (get_frame (fun _ => 100%float) (fun _ _ => (200, "aGk=")) "/x"
              (Net {[ "/y" := (0%float, "eQ==") ]} 0 [])) as (H & _).
  rewrite (H "/y"); [|discriminate]. vm_compute. reflexivity.
Defined.


End TrampolineMoreFacts.

(** ** More on the data facade *)

Module FacadeMoreFacts.
Import Py PyFacts Api IntFacts.

Lemma comprehension_get (d : gmap string value) (keys : list string) :
  comprehension (inputs_get (Mapping d)) keys
  = Returns (map (fun key => default (VStr "") (d !! key)) keys).
Proof.
  induction keys as [|k keys IH]; [reflexivity|].
  change (comprehension (inputs_get (Mapping d)) (k :: keys))
    with (b ← inputs_get (Mapping d) k;
          bs ← comprehension (inputs_get (Mapping d)) keys; Returns (b :: bs)).
  rewrite IH. reflexivity.
Qed.

Lemma dict_set_fresh (header : value) (values : list value) (data : columns) :
  header ∉ map fst data -> dict_set header values data = data ++ [(header, values)].
Proof.
  induction data as [|[h vs] data IH]; intros Hfresh; simpl; [reflexivity|].
  simpl in Hfresh. apply not_elem_of_cons in Hfresh as [Hne Hfresh].
  destruct (decide (h = header)) as [-> | _]; [contradiction|].
  now rewrite IH.
Qed.

(** The name of the column that [sheet] makes for a spreadsheet column
    when there are no headers. *)
Lemma col_header_injective (a b : Z) :
  VStr ("col-" +:+ str a) = VStr ("col-" +:+ str b) -> a = b.
Proof.
  intros [= H]. apply str_injective. exact H.
Qed.

Lemma sheet_columns_no_headers (d : gmap string value) (key_of : Z -> Z -> string)
    (start_row end_row : Z) (cols : list Z) (data : columns) :
  NoDup cols ->
  (forall col, col ∈ cols -> VStr ("col-" +:+ str col) ∉ map fst data) ->
  sheet_columns (inputs_get (Mapping d)) key_of false start_row end_row cols data
  = Returns
      (data ++
       map (fun col =>
              (VStr ("col-" +:+ str col),
               map (fun row => default (VStr "") (d !! key_of col row))
                   (range start_row (end_row + 1))))
           cols).
Proof.
  revert data. induction cols as [|c cols IH]; intros data Hnodup Hfresh.
  - simpl. now rewrite app_nil_r.
  - apply NoDup_cons in Hnodup as [Hc Hnodup].
    change (sheet_columns (inputs_get (Mapping d)) key_of false start_row end_row
              (c :: cols) data)
      with (data' ← sheet_column (inputs_get (Mapping d)) key_of false
                      start_row end_row c data;
            sheet_columns (inputs_get (Mapping d)) key_of false start_row end_row cols data').
    unfold sheet_column. rewrite comprehension_get. simpl.
    rewrite dict_set_fresh by (apply Hfresh; now left).
    rewrite IH; [|exact Hnodup|].
    + rewrite <- app_assoc. simpl. rewrite map_map. reflexivity.
    + intros col Hcol. rewrite map_app. simpl. rewrite elem_of_app.
      intros [Hin | Hin].
      * revert Hin. apply Hfresh. now right.
      * apply list_elem_of_singleton in Hin. apply col_header_injective in Hin.
        subst. contradiction.
Qed.

Section Sheet.
Variables frame other : Type.
Variable from_dict : columns -> outcome (frame + other).

(** X18.  With a mapping in [_inputs] and [headers] false, [sheet]
    hands [from_dict] one column for every spreadsheet column of the
    selection, from left to right, named [col-<n>] after the column
    number, holding the cells of the rows from top to bottom with the
    empty string for a cell that the inputs lack; nothing raises before
    [from_dict]. *)
Theorem sheet_without_headers (d : gmap string value) (selection start end_ : string) :
  split ":"%char selection = [start; end_] ->
  sheet frame other from_dict (Mapping d) selection false
  = df ← from_dict
           (map (fun col =>
                   (VStr ("col-" +:+ str col),
                    map (fun row => default (VStr "") (d !! (index_to_col col +:+ str row)))
                        (range (get_col_row_from_key start).2
                               ((get_col_row_from_key end_).2 + 1))))
                (range (get_col_row_from_key start).1
                       ((get_col_row_from_key end_).1 + 1)));
    match df with
    | inl df => Returns (Frame df)
    | inr _ => Returns (Text "Error: Incomplete Data")
    end.
Proof.
  intros Hsplit. unfold sheet. rewrite Hsplit.
  destruct (get_col_row_from_key start) as [start_col start_row].
  destruct (get_col_row_from_key end_) as [end_col end_row].
  rewrite sheet_columns_no_headers.
  - reflexivity.
  - apply NoDup_seqZ.
  - intros col _ Hin. inversion Hin.
Qed.

(** X19.  With [headers] true, a selection that has a column but no
    row (its second key lies above its first) raises IndexError, for
    [values.pop(0)] finds an empty list; the inputs are not looked
    at. *)
Theorem sheet_headers_without_rows (self_inputs : inputs_attr)
    (selection start end_ : string) :
  split ":"%char selection = [start; end_] ->
  (get_col_row_from_key start).1 <= (get_col_row_from_key end_).1 ->
  (get_col_row_from_key end_).2 < (get_col_row_from_key start).2 ->
  sheet frame other from_dict self_inputs selection true = Raises IndexError.
Proof.
  intros Hsplit Hcols Hrows. unfold sheet. rewrite Hsplit.
  destruct (get_col_row_from_key start) as [start_col start_row].
  destruct (get_col_row_from_key end_) as [end_col end_row].
  simpl in Hcols, Hrows.
  unfold range. rewrite (seqZ_cons start_col) by lia.
  change (sheet_columns ?r ?k true start_row end_row (start_col :: ?cols) [])
    with (data' ← sheet_column r k true start_row end_row start_col [];
          sheet_columns r k true start_row end_row cols data').
  unfold sheet_column, range. rewrite (seqZ_nil start_row) by lia. reflexivity.
Qed.

End Sheet.

Lemma sheet_without_headers_witness :
  sheet unit unit (fun _ => Returns (inl tt)) (Mapping {[ "A1" := VInt 3 ]}) "A1:B1" false
  = Returns (Frame tt).
Proof.
  rewrite (sheet_without_headers unit unit (fun _ => Returns (inl tt))
             {[ "A1" := VInt 3 ]} "A1:B1" "A1" "B1" eq_refl).
  reflexivity.
Defined.

Lemma sheet_headers_without_rows_witness :
  sheet unit unit (fun _ => Returns (inl tt)) EmptyList "A2:A1" true = Raises IndexError.
Proof.
  apply (sheet_headers_without_rows unit unit (fun _ => Returns (inl tt))
           EmptyList "A2:A1" "A2" "A1"); [reflexivity | | ]; vm_compute; congruence.
Defined.

End FacadeMoreFacts.

(** ** More on the legacy variant *)

Module LegacyFacts.
Import Py PyFacts Api ApiFacts IntFacts AnalyzerMoreFacts LegacyScript.

Lemma string_get_app (prefix : string) (c : ascii) (rest : string) :
  String.get (String.length prefix) (prefix +:+ String c rest) = Some c.
Proof. induction prefix as [|x p IH]; simpl_append; simpl; [reflexivity | exact IH]. Qed.

Lemma string_length_app (a b : string) :
  String.length (a +:+ b) = (String.length a + String.length b)%nat.
Proof. induction a as [|x a IH]; simpl_append; simpl; [reflexivity | now rewrite IH]. Qed.

(** The loop passes over the characters that are not digits. *)
Lemma get_col_row_loop_skip (key skipped rest : string) (index : Z) :
  all_chars (fun c => negb (isdigit c)) skipped = true ->
  LegacyApi.get_col_row_loop key (skipped +:+ rest) index
  = LegacyApi.get_col_row_loop key rest (index + Z.of_nat (String.length skipped)).
Proof.
  revert index. induction skipped as [|c s IH]; intros index H; simpl_append.
  - simpl. f_equal. lia.
  - simpl in H. apply andb_prop in H as [Hc Hs]. apply negb_true_iff in Hc.
    simpl. rewrite Hc, (IH _ Hs). f_equal. lia.
Qed.

(** X20.  The legacy [get_col_row] takes the column from the one
    character in front of the first digit: for a key made of characters
    that are not digits, ending in [c], followed by a run of digits and
    nothing else, at most 4300 of them (beyond that [int] refuses the
    numeral), the column is the number of [c] alone and the row is the
    number the digits spell.  A key with two letters or more therefore
    gets the column of its last letter. *)
Theorem get_col_row_last_letter (before : string) (c : ascii) (digits : string) :
  all_chars (fun x => negb (isdigit x)) before = true ->
  isdigit c = false ->
  all_chars isdigit digits = true ->
  truthy digits = true ->
  len digits <= LegacyApi.int_max_str_digits ->
  LegacyApi.get_col_row (before +:+ String c digits)
  = Returns (Some (ord c - ord "A"%char + 1, digits_value digits 0)).
Proof.
  intros Hbefore Hc Hdigits Hne Hlen. unfold LegacyApi.get_col_row.
  assert (Hskip : all_chars (fun x => negb (isdigit x)) (before +:+ String c "") = true).
  { rewrite all_chars_app, Hbefore. simpl. now rewrite Hc. }
  assert (Hloop : forall key : string,
            LegacyApi.get_col_row_loop key (before +:+ String c digits) 0
            = LegacyApi.get_col_row_loop key digits
                (0 + Z.of_nat (String.length (before +:+ String c "")))).
  { intros key. rewrite <- (get_col_row_loop_skip key _ digits 0 Hskip).
    now rewrite append_assoc. }
  rewrite Hloop. set (key := before +:+ String c digits).
  destruct digits as [|d ds]; [discriminate|].
  pose proof Hdigits as Hd. simpl in Hd. apply andb_prop in Hd as [Hd _].
  simpl LegacyApi.get_col_row_loop. rewrite Hd.
  rewrite (int_digits_string (String d ds) Hdigits Hne Hlen).
  assert (Hchar : LegacyApi.char_at key
                    (0 + Z.of_nat (String.length (before +:+ String c "")) - 1)
                  = Returns c).
  { unfold LegacyApi.char_at. rewrite string_length_app. simpl String.length.
    rewrite list_index_in_range.
    - replace (Z.to_nat (0 + Z.of_nat (String.length before + 1) - 1))
        with (String.length before) by lia.
      unfold key. now rewrite string_get_app.
    - unfold key. rewrite string_length_app. simpl. lia. }
  rewrite Hchar. reflexivity.
Qed.

Lemma get_col_row_last_letter_witness :
  LegacyApi.get_col_row "AB12" = Returns (Some (2, 12)).
Proof.
  apply (get_col_row_last_letter "A" "B"%char "12"); try reflexivity.
  vm_compute. discriminate.
Defined.

Lemma get_col_row_loop_no_digit (key rest : string) (index : Z) :
  all_chars (fun c => negb (isdigit c)) rest = true ->
  LegacyApi.get_col_row_loop key rest index = Returns None.
Proof.
  intros H. rewrite <- (append_nil_r rest).
  now rewrite (get_col_row_loop_skip key rest "" index H).
Qed.

(** X21.  The legacy [get_col_row] returns [None] for a key without a
    digit, and [sheet] then fails with TypeError when it unpacks the
    result, whatever the inputs hold. *)
Theorem legacy_sheet_key_without_digit (object : Type)
    (from_dict : columns -> outcome object) (inputs : gmap string value)
    (selection start end_ : string) (headers : bool) :
  split ":"%char selection = [start; end_] ->
  all_chars (fun c => negb (isdigit c)) start = true ->
  LegacyApi.get_col_row start = Returns None /\
  LegacyApi.sheet object from_dict inputs selection headers = Raises TypeError.
Proof.
  intros Hsplit Hstart.
  assert (Hnone : LegacyApi.get_col_row start = Returns None)
    by (apply get_col_row_loop_no_digit, Hstart).
  split; [exact Hnone|].
  unfold LegacyApi.sheet, LegacyApi.unpack_col_row. rewrite Hsplit, Hnone. reflexivity.
Qed.

Lemma legacy_sheet_key_without_digit_witness :
  LegacyApi.sheet unit (fun _ => Returns tt) ∅ "A:B2" true = Raises TypeError.
Proof.
  destruct (legacy_sheet_key_without_digit unit (fun _ => Returns tt) ∅ "A:B2" "A" "B2" true)
    as [_ H]; [reflexivity | reflexivity | exact H].
Defined.

(** X22.  [edit_script] never raises: it returns the stripped script
    with [_=] put in front of its last line, that is in front of the
    whole text when the stripped script has one line. *)
Theorem edit_script_last_line (script : string) :
  (all_chars (fun c => negb (Ascii.eqb c "010"%char)) (strip script) = true ->
   edit_script script = Returns ("_=" +:+ strip script)) /\
  (forall before line : string,
     strip script = before +:+ String "010"%char line ->
     all_chars (fun c => negb (Ascii.eqb c "010"%char)) line = true ->
     edit_script script = Returns (before +:+ String "010"%char ("_=" +:+ line))) /\
  (exists result : string, edit_script script = Returns result).
Proof.
  assert (Hlast : forall (lines : list string) (line : string),
            match list_index (length (lines ++ [line])) (-1) with
            | Some n =>
                Returns (join "010"%char (alter (fun l => "_=" +:+ l) n (lines ++ [line])))
            | None => Raises IndexError
            end
            = Returns (join "010"%char (lines ++ ["_=" +:+ line]))).
  { intros lines line.
    assert (Hidx : list_index (length (lines ++ [line])) (-1) = Some (length lines)).
    { unfold list_index. rewrite length_app. simpl length.
      change (-1 <? 0) with true. cbv iota.
      replace (0 <=? -1 + Z.of_nat (length lines + 1)) with true
        by (symmetry; apply Z.leb_le; lia).
      replace (-1 + Z.of_nat (length lines + 1) <? Z.of_nat (length lines + 1)) with true
        by (symmetry; apply Z.ltb_lt; lia).
      simpl andb. cbv iota. f_equal. lia. }
    rewrite Hidx. now rewrite alter_last. }
  split; [|split].
  - intros Hone. unfold edit_script. rewrite (split_none _ _ Hone).
    apply (Hlast [] (strip script)).
  - intros before line Hstrip Hline. unfold edit_script.
    rewrite Hstrip, (split_snoc _ _ _ Hline), Hlast.
    rewrite join_snoc by apply split_nonempty. now rewrite join_split.
  - unfold edit_script.
    destruct (split "010"%char (strip script)) as [|x xs] eqn:Hsplit using rev_ind.
    + now apply split_nonempty in Hsplit.
    + rewrite Hlast. eauto.
Qed.

Lemma edit_script_last_line_witness :
  edit_script "  x = 1
x + 1
" = Returns ("x = 1" +:+ String "010"%char ("_=" +:+ "x + 1")).
Proof.
  destruct (edit_script_last_line "  x = 1
x + 1
") as (_ & H & _).
  apply (H "x = 1" "x + 1"); reflexivity.
Defined.

End LegacyFacts.

(** ** More on the edit history *)

Module HistoryMoreFacts.
Import History HistoryFacts HistoryLog.

Section Log.
Variable Sheet : Type.
Variable is_user_edit : edit Sheet -> bool.

(** X23.  An edit that is added and whose [undo] then succeeds is
    taken off again: [undo] after [add] leaves the history as it was
    before the [add], with the two flushes scheduled, and the sheet is
    what the edit's [undo] made of it. *)
Theorem undo_after_add (e : edit Sheet) (st : state Sheet)
    (console : list (string * string)) (sheet sheet' : Sheet) :
  edit_undo Sheet e sheet = (true, sheet') ->
  undo Sheet (add Sheet is_user_edit e st console).1 sheet
  = (State Sheet (history Sheet st)
       ("flush events" :: "flush events" :: scheduled Sheet st)
       (("undo " +:+ edit_repr Sheet e) :: printed Sheet st),
     sheet').
Proof.
  intros Hok. unfold undo, add. simpl.
  rewrite rev_app_distr. simpl. rewrite Hok. simpl.
  now rewrite rev_involutive.
Qed.

Lemma undo_loop_suffix (stack : list (edit Sheet)) (scheduled printed : list string)
    (sheet : Sheet) :
  exists n : nat,
    (undo_loop Sheet stack scheduled printed sheet).1.1.1 = drop n stack /\
    ((undo_loop Sheet stack scheduled printed sheet).1.1.2 = scheduled \/
     (undo_loop Sheet stack scheduled printed sheet).1.1.2 = "flush events" :: scheduled).
Proof.
  revert sheet. induction stack as [|e stack IH]; intros sheet; simpl.
  - exists 0%nat. auto.
  - destruct (edit_undo Sheet e sheet) as [[] sheet'].
    + exists 1%nat. simpl. auto.
    + destruct (IH sheet') as (n & Hdrop & Hsched). exists (S n). auto.
Qed.

(** X24.  [undo] only takes edits off the end of the history: what is
    left is a prefix of what was there, so no edit is added, changed or
    reordered; and it schedules at most one flush. *)
Theorem undo_keeps_prefix (st : state Sheet) (sheet : Sheet) :
  (exists n : nat, history Sheet (undo Sheet st sheet).1 = take n (history Sheet st)) /\
  (scheduled Sheet (undo Sheet st sheet).1 = scheduled Sheet st \/
   scheduled Sheet (undo Sheet st sheet).1 = "flush events" :: scheduled Sheet st).
Proof.
  unfold undo.
  destruct (undo_loop_suffix (rev (history Sheet st)) (scheduled Sheet st)
              (printed Sheet st) sheet) as (n & Hdrop & Hsched).
  destruct (undo_loop Sheet (rev (history Sheet st)) (scheduled Sheet st)
              (printed Sheet st) sheet) as [[[stack sched] pr] sh].
  simpl in *. split; [|exact Hsched].
  exists (length (history Sheet st) - n)%nat.
  rewrite Hdrop. change (@drop) with (@skipn). rewrite List.skipn_rev.
  apply rev_involutive.
Qed.

End Log.

Lemma undo_after_add_witness :
  undo nat (add nat (fun _ => true) (example_succeeds "edit") (State nat [] [] []) []).1 0%nat
  = (State nat [] ["flush events"; "flush events"] ["undo edit"], 1%nat).
Proof.
  apply (undo_after_add nat (fun _ => true) (example_succeeds "edit")
           (State nat [] [] []) [] 0%nat 1%nat).
  reflexivity.
Defined.

End HistoryMoreFacts.

(** ** More on the widget toolkit *)

Module ToolkitFacts.
Import Py PyFacts Widgets Toolkit.

(** *** Sizes *)

Lemma ltb_leb (x y : float) : PrimFloat.ltb x y = true -> PrimFloat.leb x y = true.
Proof.
  rewrite ltb_spec, leb_spec. unfold SFltb, SFleb.
  destruct (SFcompare (Prim2SF x) (Prim2SF y)) as [[]|]; congruence.
Qed.

(** X25.  [get_size] is at least 1 for every element, also one whose
    measured size is zero, negative or not a number; so the size that
    [resize] divides by is never below 1. *)
Theorem get_size_at_least_one (d : direction) (x : box) :
  PrimFloat.leb 1 (get_size d x) = true.
Proof.
  assert (H : forall w : float, PrimFloat.leb 1 (max1 w) = true).
  { intros w. unfold max1. destruct (PrimFloat.ltb 1 w) eqn:Hw.
    - apply ltb_leb, Hw.
    - reflexivity. }
  destruct d; apply H.
Qed.

(** *** The guided tour *)

Lemma show_real_step (self : tutorial) (position : Z) (s : step) :
  In (Shown position s) (show self) ->
  position = index self /\ 0 <= position < Z.of_nat (length (steps self)) /\
  steps self !! Z.to_nat position = Some s.
Proof.
  unfold show.
  destruct (index self <? 0) eqn:Hneg; [intros []|].
  destruct (Z.of_nat (length (steps self)) <=? index self) eqn:Hlen; [intros []|].
  simpl. apply Z.ltb_ge in Hneg. apply Z.leb_gt in Hlen.
  destruct (steps self !! Z.to_nat (index self)) as [s'|] eqn:Hstep; [|intros []].
  intros [[= <- <-] | []]. auto.
Qed.

Lemma call_steps (c : tour_call) (self : tutorial) : steps (call c self).1 = steps self.
Proof.
  destruct c as [| | |i]; simpl; unfold run, previous, event; unfold next;
    repeat match goal with |- context [if ?b then _ else _] => destruct b end;
    reflexivity.
Qed.

Lemma call_index (c : tour_call) (self : tutorial) :
  0 <= index self <= Z.of_nat (length (steps self)) ->
  0 <= index (call c self).1 <= Z.of_nat (length (steps self)).
Proof.
  intros H. destruct c as [| | |i]; simpl; unfold run, previous, event; unfold next.
  - simpl. lia.
  - destruct (Z.ltb_spec 0 (index self)); simpl; lia.
  - destruct (Z.ltb_spec (index self) (Z.of_nat (length (steps self)))); simpl; lia.
  - destruct (i =? index self); [|simpl; lia].
    destruct (Z.ltb_spec (index self) (Z.of_nat (length (steps self)))); simpl; lia.
Qed.

(** X26.  Whatever is called on a tour, in whatever order, its steps
    stay the same and its index stays between 0 and the number of
    steps; and every call shows at most steps of the tour, each at its
    own position, which is then the index. *)
Theorem tutorial_index_in_range (cs : list tour_call) (self : tutorial) :
  0 <= index self <= Z.of_nat (length (steps self)) ->
  steps (calls cs self) = steps self /\
  0 <= index (calls cs self) <= Z.of_nat (length (steps self)) /\
  (forall (c : tour_call) (position : Z) (s : step),
     In (Shown position s) (call c (calls cs self)).2 ->
     position = index (call c (calls cs self)).1 /\
     steps self !! Z.to_nat position = Some s).
Proof.
  intros Hinv.
  assert (Hcalls : steps (calls cs self) = steps self /\
                   0 <= index (calls cs self) <= Z.of_nat (length (steps self))).
  { unfold calls. revert self Hinv. induction cs as [|c cs IH]; intros self Hinv; simpl.
    - auto.
    - destruct (IH (call c self).1) as [Hsteps Hindex].
      + rewrite call_steps. apply call_index, Hinv.
      + rewrite call_steps in Hsteps, Hindex. auto. }
  destruct Hcalls as [Hsteps Hindex]. split; [exact Hsteps|]. split; [exact Hindex|].
  intros c position s Hshown. rewrite <- Hsteps.
  set (t := calls cs self) in *.
  assert (Hshow : forall t' : tutorial, steps t' = steps t ->
            In (Shown position s) (show t') ->
            position = index t' /\ steps t !! Z.to_nat position = Some s).
  { intros t' Ht' Hin. apply show_real_step in Hin as (Hp & _ & Hs).
    rewrite Ht' in Hs. auto. }
  destruct c as [| | |i]; simpl in *; unfold run, previous, event in *; unfold next in *.
  - apply Hshow in Hshown; auto.
  - destruct (0 <? index t); simpl in *.
    + destruct Hshown as [Hc | Hshown]; [discriminate|]. apply Hshow in Hshown; auto.
    + destruct Hshown as [Hc | []]. discriminate.
  - destruct (index t <? Z.of_nat (length (steps t))); simpl in *.
    + destruct Hshown as [Hc | Hshown]; [discriminate|]. apply Hshow in Hshown; auto.
    + destruct Hshown as [Hc | []]. discriminate.
  - destruct (i =? index t); [|destruct Hshown].
    destruct (index t <? Z.of_nat (length (steps t))); simpl in *.
    + destruct Hshown as [Hc | Hshown]; [discriminate|]. apply Hshow in Hshown; auto.
    + destruct Hshown as [Hc | []]. discriminate.
Qed.

Lemma tutorial_index_in_range_witness :
  0 <= index (calls [Next; Next; Next; Previous; Event 1; Run; Previous]
                (Tutorial [("#a", "click", "one"); ("#b", "click", "two")] 0))
    <= Z.of_nat (length [("#a", "click", "one"); ("#b", "click", "two")]).
Proof.
  destruct (tutorial_index_in_range [Next; Next; Next; Previous; Event 1; Run; Previous]
              (Tutorial [("#a", "click", "one"); ("#b", "click", "two")] 0))
    as (_ & H & _); [simpl; lia | exact H].
Defined.

(** X27.  [previous] undoes [next] and [next] undoes [previous]
    wherever the first of the two moves the index; at the last step
    [next] moves the index past the steps and shows nothing, and there
    [next] does nothing more than close. *)
Theorem tutorial_next_previous (self : tutorial) :
  (0 <= index self < Z.of_nat (length (steps self)) ->
   (previous (next self).1).1 = self) /\
  (0 < index self <= Z.of_nat (length (steps self)) ->
   (next (previous self).1).1 = self) /\
  (index self = Z.of_nat (length (steps self)) - 1 ->
   0 <= index self ->
   next self = (Tutorial (steps self) (Z.of_nat (length (steps self))), [Closed]) /\
   next (next self).1 = ((next self).1, [Closed])).
Proof.
  destruct self as [ss i]. simpl. split; [|split].
  - intros H. unfold next. simpl.
    replace (i <? Z.of_nat (length ss)) with true by (symmetry; apply Z.ltb_lt; lia).
    unfold previous. simpl.
    replace (0 <? i + 1) with true by (symmetry; apply Z.ltb_lt; lia).
    simpl. f_equal. lia.
  - intros H. unfold previous. simpl.
    replace (0 <? i) with true by (symmetry; apply Z.ltb_lt; lia).
    unfold next. simpl.
    replace (i - 1 <? Z.of_nat (length ss)) with true by (symmetry; apply Z.ltb_lt; lia).
    simpl. f_equal. lia.
  - intros Hlast Hpos. unfold next. simpl.
    replace (i <? Z.of_nat (length ss)) with true by (symmetry; apply Z.ltb_lt; lia).
    simpl. replace (i + 1) with (Z.of_nat (length ss)) by lia.
    unfold show, close. simpl.
    replace (Z.of_nat (length ss) <? 0) with false by (symmetry; apply Z.ltb_ge; lia).
    rewrite Z.leb_refl, Z.ltb_irrefl. simpl. auto.
Qed.

Lemma tutorial_next_previous_witness :
  (previous (next (Tutorial [("#a", "click", "one"); ("#b", "click", "two")] 0)).1).1
  = Tutorial [("#a", "click", "one"); ("#b", "click", "two")] 0.
Proof.
  destruct (tutorial_next_previous
              (Tutorial [("#a", "click", "one"); ("#b", "click", "two")] 0)) as (H & _).
  apply H. simpl. lia.
Defined.

(** *** [_flatten] *)

Section Flatten.
Variable object : Type.
Variable str_float : float -> string.
#[local] Abbreviation flat := (_flatten object str_float).

(** X28.  What [_flatten] returns does not depend on how the children
    are grouped: children given one after the other, in a list, in a
    generator or in lists within lists are appended alike, in the same
    order; and a dict among the children adds nothing. *)
Theorem flatten_grouping (before inside after : list (child object))
    (css : list (string * string)) :
  flat (before ++ after) = flat before ++ flat after /\
  flat (before ++ [List object inside] ++ after) = flat (before ++ inside ++ after) /\
  flat (before ++ [Generator object inside] ++ after) = flat (before ++ inside ++ after) /\
  flat [List object [List object inside]] = flat inside /\
  flat (before ++ [Dict object css] ++ after) = flat (before ++ after).
Proof.
  assert (Happ : forall a b, flat (a ++ b) = flat a ++ flat b).
  { intros a b. unfold _flatten. now rewrite map_app, concat_app. }
  assert (Hlist : forall l, flat [List object l] = flat l).
  { intros l. unfold _flatten. simpl. now rewrite app_nil_r. }
  assert (Hgen : forall l, flat [Generator object l] = flat l).
  { intros l. unfold _flatten. simpl. now rewrite app_nil_r. }
  split; [apply Happ|]. split; [|split; [|split]].
  - now rewrite !Happ, Hlist.
  - now rewrite !Happ, Hgen.
  - now rewrite !Hlist.
  - rewrite !Happ. reflexivity.
Qed.

End Flatten.

(** *** Menu shortcuts *)

Section Shortcuts.
Variable item : Type.

Lemma MenuItem_init_keeps (shortcut : option string) (self : item)
    (shortcuts shortcuts' : gmap string item) (s : string) :
  MenuItem_init item shortcut self shortcuts = Returns shortcuts' ->
  s ∈ BROWSER_SHORTCUTS \/ s = "" ->
  shortcuts !! s = None -> shortcuts' !! s = None.
Proof.
  unfold MenuItem_init. intros Hinit Hs Hnone.
  destruct shortcut as [k|]; [|congruence].
  destruct (bool_decide (k ∈ BROWSER_SHORTCUTS)) eqn:Hk; [discriminate|].
  apply bool_decide_eq_false in Hk.
  destruct (truthy k) eqn:Hne; [|congruence].
  injection Hinit as <-. rewrite lookup_insert_ne; [exact Hnone|].
  intros ->. destruct Hs as [Hs | ->]; [contradiction | discriminate].
Qed.

(** X29.  Whatever menu items are constructed, a shortcut that the
    browser reserves and the empty shortcut are never in the registry;
    so no keydown event with the shortcut [Cmd+N], [Cmd+T], [Cmd+W] or
    [Cmd+Q], and no event without a key, selects a menu item. *)
Theorem reserved_shortcuts_never_registered (items : list (option string * item))
    (event : keydown) :
  let shortcuts := construct_all item items ∅ in
  (forall s : string, s ∈ BROWSER_SHORTCUTS \/ s = "" -> shortcuts !! s = None) /\
  (shortcut_of event ∈ BROWSER_SHORTCUTS \/ key event = None ->
   handle_keydown item shortcuts event = None).
Proof.
  intros shortcuts.
  assert (Hinv : forall s : string,
            s ∈ BROWSER_SHORTCUTS \/ s = "" -> shortcuts !! s = None).
  { intros s Hs. unfold shortcuts.
    assert (Hgen : forall reg : gmap string item,
              reg !! s = None -> construct_all item items reg !! s = None).
    { induction items as [|[shortcut self] items IH]; intros reg Hreg; simpl; [exact Hreg|].
      destruct (MenuItem_init item shortcut self reg) as [reg'|e] eqn:Hinit.
      - apply IH. eapply MenuItem_init_keeps; eauto.
      - apply IH, Hreg. }
    apply Hgen, lookup_empty. }
  split; [exact Hinv|].
  intros Hevent. unfold handle_keydown. apply Hinv.
  destruct Hevent as [H | H]; [now left|].
  right. unfold shortcut_of. now rewrite H.
Qed.

Lemma upper_char_idempotent (c : ascii) : upper_char (upper_char c) = upper_char c.
Proof.
  unfold upper_char.
  destruct ((97 <=? ord c) && (ord c <=? 122)) eqn:Hc; [|now rewrite Hc].
  apply andb_prop in Hc as [H1 H2]. apply Z.leb_le in H1, H2.
  rewrite ord_chr by lia.
  replace ((97 <=? ord c - 32) && (ord c - 32 <=? 122)) with false; [reflexivity|].
  symmetry. apply andb_false_iff. left. apply Z.leb_gt. lia.
Qed.

Lemma upper_idempotent (s : string) : upper (upper s) = upper s.
Proof.
  induction s as [|c s IH]; simpl; [reflexivity|].
  now rewrite IH, upper_char_idempotent.
Qed.

(** X30.  After a menu item is constructed with a shortcut that is not
    empty, every keydown event whose shortcut string is that shortcut
    selects the item, also when an earlier item had the same shortcut;
    events with another shortcut string select what they selected
    before; and the case of the key does not matter. *)
Theorem keydown_selects_registered (s : string) (self : item)
    (shortcuts shortcuts' : gmap string item) :
  MenuItem_init item (Some s) self shortcuts = Returns shortcuts' ->
  s <> "" ->
  (forall event : keydown,
     shortcut_of event = s -> handle_keydown item shortcuts' event = Some self) /\
  (forall event : keydown,
     shortcut_of event <> s ->
     handle_keydown item shortcuts' event = handle_keydown item shortcuts event) /\
  (forall (meta : bool) (k : string),
     shortcut_of (Keydown meta (Some (upper k))) = shortcut_of (Keydown meta (Some k))).
Proof.
  unfold MenuItem_init. intros Hinit Hne.
  destruct (bool_decide (s ∈ BROWSER_SHORTCUTS)); [discriminate|].
  destruct s as [|c s]; [contradiction|]. simpl in Hinit. injection Hinit as <-.
  unfold handle_keydown. split; [|split].
  - intros event ->. apply lookup_insert_eq.
  - intros event Hother. now rewrite lookup_insert_ne.
  - intros meta k. unfold shortcut_of. simpl. now rewrite upper_idempotent.
Qed.

End Shortcuts.

Lemma reserved_shortcuts_never_registered_witness :
  handle_keydown nat
    (construct_all nat [(Some "Cmd+K", 1%nat); (Some "Cmd+N", 2%nat); (None, 3%nat)] ∅)
    (Keydown true (Some "n"))
  = None.
Proof.
  destruct (reserved_shortcuts_never_registered nat
              [(Some "Cmd+K", 1%nat); (Some "Cmd+N", 2%nat); (None, 3%nat)]
              (Keydown true (Some "n"))) as [_ H].
  apply H. left. vm_compute. apply list_elem_of_here.
Defined.

Lemma keydown_selects_registered_witness :
  handle_keydown nat (<["Cmd+K" := 7%nat]> ∅) (Keydown true (Some "k")) = Some 7%nat.
Proof.
  destruct (keydown_selects_registered nat "Cmd+K" 7%nat ∅ (<["Cmd+K" := 7%nat]> ∅))
    as (H & _).
  - vm_compute. reflexivity.
  - discriminate.
  - apply H. vm_compute. reflexivity.
Defined.

End ToolkitFacts.
